(** * h2fit: a seven-parameter polarization-curve fit of a fuel-cell stack

    Shallow embedding of [src/h2fit/__main__.py] and [src/h2fit/csv.py].

    Numbers.  The scripts compute with NumPy float64 values.  They are
    modelled as the reals extended with the three special values a NumPy
    operation can produce ([inf], [-inf], [nan]).  Sums, products and
    quotients of finite values are exact: rounding, their overflow and the
    sign of zero are not modelled.  NumPy never raises on a logarithm of a
    non-positive number or on a division by zero: it yields a special value
    (and a warning), which is what [Np.log] and [Np.div] do here.

    The exponential comes twice.  [Np.exp] is the exact exponential; the
    evaluators written with it give the value of the formula, which the
    float64 result equals up to rounding as long as nothing overflows.
    [Np.exp64] has the range of float64: it overflows to [inf] and
    underflows to zero where [np.exp] does.  The evaluators written with it
    ([calcular_vsaida64]) are used where a statement is about finiteness or
    about a comparison of two results.

    Arrays.  One-dimensional arrays are lists; an operation on two arrays
    follows NumPy's broadcasting rule and raises [ValueError] when the
    shapes do not agree.

    Optimizers.  [differential_evolution] and [minimize] belong to SciPy,
    not to this repository.  They are taken as parameters: a search is a
    tree that either stops or asks for the objective at one point, and goes
    on with what the call gave, a value or an exception. *)

From Stdlib Require Import Reals Lra Lia List ZArith Bool Permutation.
Import ListNotations.

Open Scope R_scope.

(** ** Python exceptions and results *)

Inductive exn : Type :=
| ValueError
| RuntimeError.

Inductive result (A : Type) : Type :=
| Ok (a : A)
| Raise (e : exn).

Arguments Ok {A} a.
Arguments Raise {A} e.

Definition bind {A B : Type} (r : result A) (k : A -> result B) : result B :=
  match r with
  | Ok a => k a
  | Raise e => Raise e
  end.

Notation "x <- r ;; k" := (bind r (fun x => k))
  (at level 61, r at next level, right associativity).

(** ** NumPy scalars and one-dimensional arrays *)

Module Np.

Inductive float : Type :=
| Fin (r : R)
| PInf
| NInf
| NaN.

Coercion Fin : R >-> float.

Definition is_finite (a : float) : Prop :=
  match a with
  | Fin _ => True
  | _ => False
  end.

(** Three-way case analysis on the sign of a real. *)
Definition Rsign_case {A : Type} (x : R) (neg zero pos : A) : A :=
  match total_order_T x 0 with
  | inleft (left _) => neg
  | inleft (right _) => zero
  | inright _ => pos
  end.

Definition neg (a : float) : float :=
  match a with
  | Fin x => Fin (- x)
  | PInf => NInf
  | NInf => PInf
  | NaN => NaN
  end.

Definition add (a b : float) : float :=
  match a, b with
  | Fin x, Fin y => Fin (x + y)
  | NaN, _ | _, NaN => NaN
  | PInf, NInf | NInf, PInf => NaN
  | PInf, _ | _, PInf => PInf
  | NInf, _ | _, NInf => NInf
  end.

Definition sub (a b : float) : float := add a (neg b).

Definition mul (a b : float) : float :=
  match a, b with
  | Fin x, Fin y => Fin (x * y)
  | NaN, _ | _, NaN => NaN
  | Fin x, PInf | PInf, Fin x => Rsign_case x NInf NaN PInf
  | Fin x, NInf | NInf, Fin x => Rsign_case x PInf NaN NInf
  | PInf, PInf | NInf, NInf => PInf
  | PInf, NInf | NInf, PInf => NInf
  end.

Definition div (a b : float) : float :=
  match a, b with
  | Fin x, Fin y =>
      if Req_dec_T y 0 then Rsign_case x NInf NaN PInf else Fin (x / y)
  | NaN, _ | _, NaN => NaN
  | Fin _, PInf | Fin _, NInf => Fin 0
  | PInf, Fin y => Rsign_case y NInf PInf PInf
  | NInf, Fin y => Rsign_case y PInf NInf NInf
  | PInf, PInf | PInf, NInf | NInf, PInf | NInf, NInf => NaN
  end.

(** [np.log]: [nan] below zero, [-inf] at zero. *)
Definition log (a : float) : float :=
  match a with
  | Fin x => Rsign_case x NaN NInf (Fin (ln x))
  | PInf => PInf
  | NInf => NaN
  | NaN => NaN
  end.

Definition exp (a : float) : float :=
  match a with
  | Fin x => Fin (Rtrigo_def.exp x)
  | PInf => PInf
  | NInf => Fin 0
  | NaN => NaN
  end.

(** The range of float64.  A correctly rounded result is [inf] from
    [2^1024 - 2^970] on (the largest finite value is [2^1024 - 2^971]) and
    zero up to [2^-1075] (the smallest positive value is [2^-1074]). *)
Definition overflow_threshold : R := 2 ^ 1024 - 2 ^ 970.

Definition underflow_threshold : R := / 2 ^ 1075.

(** [np.exp] with the range of float64; the value in between is exact. *)
Definition exp64 (a : float) : float :=
  match a with
  | Fin x =>
      if Rle_dec overflow_threshold (Rtrigo_def.exp x) then PInf
      else if Rle_dec (Rtrigo_def.exp x) underflow_threshold then Fin 0
      else Fin (Rtrigo_def.exp x)
  | PInf => PInf
  | NInf => Fin 0
  | NaN => NaN
  end.

Definition abs (a : float) : float :=
  match a with
  | Fin x => Fin (Rabs x)
  | PInf => PInf
  | NInf => PInf
  | NaN => NaN
  end.


(** [a ** 2]. *)
Definition square (a : float) : float := mul a a.

(** Broadcasting of two one-dimensional arrays under a binary
    element-wise operation. *)
Fixpoint zip_with {A B C : Type} (f : A -> B -> C) (a : list A) (b : list B)
  : list C :=
  match a, b with
  | x :: a', y :: b' => f x y :: zip_with f a' b'
  | _, _ => []
  end.

Definition broadcast2 {A B C : Type} (f : A -> B -> C)
  (a : list A) (b : list B) : result (list C) :=
  if Nat.eqb (length a) (length b) then Ok (zip_with f a b)
  else
    match a, b with
    | [x], _ => Ok (map (f x) b)
    | _, [y] => Ok (map (fun x => f x y) a)
    | _, _ => Raise ValueError
    end.

(** [np.sum] and [np.mean] of a one-dimensional array; the mean of an
    empty array is [nan]. *)
Definition sum (a : list float) : float := fold_left add a (Fin 0).

Definition mean (a : list float) : float :=
  div (sum a) (Fin (INR (length a))).

End Np.

Import Np.

Declare Scope float_scope.
Delimit Scope float_scope with np.
Bind Scope float_scope with float.
Infix "+" := Np.add : float_scope.
Infix "-" := Np.sub : float_scope.
Infix "*" := Np.mul : float_scope.
Infix "/" := Np.div : float_scope.
Notation "- x" := (Np.neg x) : float_scope.

(** ** Module-level state of the scripts *)

Record globals : Type := {
  corrente : list R;
  temperatura : list R;
  vref : list R;
  pH2 : R;
  pO2 : R;
  N : Z;
  limites : list (R * R)
}.

(** The literals of [__main__.py]. *)
Definition main_globals : globals := {|
  corrente := [11.2; 22.6; 35.4; 49.9; 68.1];
  temperatura := [306.55; 315.85; 322.45; 326.25; 330.45];
  vref := [52.2; 51.1; 49.2; 47; 44.1];
  pH2 := 0.65;
  pO2 := 0.21;
  N := 60;
  limites := [(-1.2, -0.8); (1e-3, 5e-3); (3.6e-5, 9.8e-5);
              (-2.6e-4, -0.954e-4); (1e-4, 8e-4); (1.972e-4, 0.2);
              (0.03, 0.5002)]
|}.

(** The bounds of [__main__.py] with the first interval reversed. *)
Definition degenerate_limites : list (R * R) :=
  [(-0.8, -1.2); (1e-3, 5e-3); (3.6e-5, 9.8e-5);
   (-2.6e-4, -0.954e-4); (1e-4, 8e-4); (1.972e-4, 0.2);
   (0.03, 0.5002)].

(** The data of [__main__.py] with the last three currents left out. *)
Definition mismatched_globals : globals := {|
  corrente := [11.2; 22.6];
  temperatura := [306.55; 315.85; 322.45; 326.25; 330.45];
  vref := [52.2; 51.1; 49.2; 47; 44.1];
  pH2 := 0.65;
  pO2 := 0.21;
  N := 60;
  limites := limites main_globals
|}.

(** [csv.py] reads the samples and the bounds from two CSV files and fixes
    the same three constants. *)
Definition csv_globals (entradas : list (R * R * R)) (lim : list (R * R))
  : globals := {|
  corrente := map (fun e => fst (fst e)) entradas;
  temperatura := map (fun e => snd (fst e)) entradas;
  vref := map snd entradas;
  pH2 := 0.65;
  pO2 := 0.21;
  N := 60;
  limites := lim
|}.

(** ** The model evaluator of [__main__.py]

    Every line of [calcular_vsaida] is an element-wise array expression in
    [I] and [T]; [v_saida] is that expression at one pair of elements, with
    the source's local names, and [calcular_vsaida] unpacks the parameter
    array and broadcasts [I] against [T]. *)

Module Main.

Definition v_saida (g : globals) (x1 x2 x3 x4 Rint m n : R) (I T : R)
  : float :=
  let v_nernst :=
    (1.229 - 0.85e-3 * (T - 298.15)
     + 4.3085e-5 * T * (log (pH2 g) + 0.5 * log (pO2 g)))%np in
  let perda_ativacao :=
    (- (x1 + x2 * T
        + x3 * T * log (pO2 g / (5.08e6 * exp (-498 / T)))
        + x4 * T * log (I + 1e-6)))%np in
  let perda_ohmica := (Rint * I)%np in
  let perda_concentracao := (m * exp (n * I))%np in
  (IZR (N g)
   * (v_nernst + perda_ativacao - perda_ohmica - perda_concentracao))%np.

Definition calcular_vsaida (g : globals) (I T : list R) (params : list R)
  : result (list float) :=
  match params with
  | [x1; x2; x3; x4; Rint; m; n] =>
      broadcast2 (v_saida g x1 x2 x3 x4 Rint m n) I T
  | _ => Raise ValueError
  end.

(** The same function with the float64 range of [np.exp]. *)
Definition v_saida64 (g : globals) (x1 x2 x3 x4 Rint m n : R) (I T : R)
  : float :=
  let v_nernst :=
    (1.229 - 0.85e-3 * (T - 298.15)
     + 4.3085e-5 * T * (log (pH2 g) + 0.5 * log (pO2 g)))%np in
  let perda_ativacao :=
    (- (x1 + x2 * T
        + x3 * T * log (pO2 g / (5.08e6 * exp64 (-498 / T)))
        + x4 * T * log (I + 1e-6)))%np in
  let perda_ohmica := (Rint * I)%np in
  let perda_concentracao := (m * exp64 (n * I))%np in
  (IZR (N g)
   * (v_nernst + perda_ativacao - perda_ohmica - perda_concentracao))%np.

Definition calcular_vsaida64 (g : globals) (I T : list R) (params : list R)
  : result (list float) :=
  match params with
  | [x1; x2; x3; x4; Rint; m; n] =>
      broadcast2 (v_saida64 g x1 x2 x3 x4 Rint m n) I T
  | _ => Raise ValueError
  end.

End Main.

(** ** The model evaluator of [csv.py] *)

Module Csv.

Definition v_saida (g : globals) (x1 x2 x3 x4 Rint m n : R) (I T : R)
  : float :=
  let v_nernst :=
    (1.229 - 0.85e-3 * (T - 298.15)
     + 4.3085e-5 * T * (log (pH2 g) + 0.5 * log (pO2 g)))%np in
  let perda_ativacao :=
    (- (x1 + x2 * T
        + x3 * T * log (pO2 g / (5.08e6 * exp (-498 / T)))
        + x4 * T * log (I + 1e-6)))%np in
  let perda_ohmica := (Rint * I)%np in
  let perda_concentracao := (m * exp (n * I))%np in
  (IZR (N g)
   * (v_nernst - perda_ativacao - perda_ohmica - perda_concentracao))%np.

Definition calcular_vsaida (g : globals) (I T : list R) (params : list R)
  : result (list float) :=
  match params with
  | [x1; x2; x3; x4; Rint; m; n] =>
      broadcast2 (v_saida g x1 x2 x3 x4 Rint m n) I T
  | _ => Raise ValueError
  end.

(** The same function with the float64 range of [np.exp]. *)
Definition v_saida64 (g : globals) (x1 x2 x3 x4 Rint m n : R) (I T : R)
  : float :=
  let v_nernst :=
    (1.229 - 0.85e-3 * (T - 298.15)
     + 4.3085e-5 * T * (log (pH2 g) + 0.5 * log (pO2 g)))%np in
  let perda_ativacao :=
    (- (x1 + x2 * T
        + x3 * T * log (pO2 g / (5.08e6 * exp64 (-498 / T)))
        + x4 * T * log (I + 1e-6)))%np in
  let perda_ohmica := (Rint * I)%np in
  let perda_concentracao := (m * exp64 (n * I))%np in
  (IZR (N g)
   * (v_nernst - perda_ativacao - perda_ohmica - perda_concentracao))%np.

Definition calcular_vsaida64 (g : globals) (I T : list R) (params : list R)
  : result (list float) :=
  match params with
  | [x1; x2; x3; x4; Rint; m; n] =>
      broadcast2 (v_saida64 g x1 x2 x3 x4 Rint m n) I T
  | _ => Raise ValueError
  end.

End Csv.

(** ** Objective, optimization and post-processing

    The rest of the two scripts is the same text around their own
    [calcular_vsaida]; it is written once over the evaluator. *)

Definition evaluator : Type :=
  globals -> list R -> list R -> list R -> result (list float).

Record fit_result : Type := {
  params_otimizados : list R;
  v_saida_otimizada : list float;
  potencia_saida : list float;
  erro_perc : list float;
  erro_medio : float
}.

(** A run of a SciPy optimizer, seen from the script: it returns a point,
    raises, or calls the objective at a point and goes on with what the
    call gave.  An exception of the objective reaches the optimizer first:
    whether it passes through, is wrapped in another exception or is
    swallowed is the optimizer's choice. *)
Inductive search : Type :=
| Done (x : list R)
| Abort (e : exn)
| Ask (p : list R) (k : result float -> search).

Record optimizers : Type := {
  differential_evolution : list (R * R) -> search;
  minimize : list R -> list (R * R) -> search
}.

(** [run f s] plays the search [s] against the objective [f]: the points
    at which [f] was called, in order, and the outcome. *)
Fixpoint run (f : list R -> result float) (s : search)
  : list (list R) * result (list R) :=
  match s with
  | Done x => ([], Ok x)
  | Abort e => ([], Raise e)
  | Ask p k => let (t, r) := run f (k (f p)) in (p :: t, r)
  end.

Section Pipeline.

Variable calcular_vsaida : evaluator.

Definition func_objetivo (g : globals) (params : list R) : result float :=
  vs <- calcular_vsaida g (corrente g) (temperatura g) params ;;
  d <- broadcast2 Np.sub (map Fin (vref g)) vs ;;
  Ok (Np.sum (map square d)).

(** Lines 72-74 and 81 of [__main__.py] (77-79 and 85 of [csv.py]). *)
Definition pos_processamento (g : globals) (params : list R)
  : result fit_result :=
  v <- calcular_vsaida g (corrente g) (temperatura g) params ;;
  potencia <- broadcast2 Np.mul v (map Fin (corrente g)) ;;
  d <- broadcast2 Np.sub (map Fin (vref g)) v ;;
  q <- broadcast2 Np.div d (map Fin (vref g)) ;;
  let erro := map (fun e => (Np.abs e * 100)%np) q in
  Ok {| params_otimizados := params;
        v_saida_otimizada := v;
        potencia_saida := potencia;
        erro_perc := erro;
        erro_medio := Np.mean erro |}.

(** The top-level statements of the script: global search, then local
    refinement from its result, then post-processing.  The first component
    is the list of points at which the objective was evaluated. *)
Definition fit (o : optimizers) (g : globals)
  : list (list R) * result fit_result :=
  let (t1, r1) := run (func_objetivo g) (differential_evolution o (limites g)) in
  match r1 with
  | Raise e => (t1, Raise e)
  | Ok x =>
      let (t2, r2) := run (func_objetivo g) (minimize o x (limites g)) in
      match r2 with
      | Raise e => (t1 ++ t2, Raise e)
      | Ok x' => (t1 ++ t2, pos_processamento g x')
      end
  end.

End Pipeline.

Module MainFit.
Definition func_objetivo := func_objetivo Main.calcular_vsaida.
Definition pos_processamento := pos_processamento Main.calcular_vsaida.
Definition fit := fit Main.calcular_vsaida.
End MainFit.

Module CsvFit.
Definition func_objetivo := func_objetivo Csv.calcular_vsaida.
Definition pos_processamento := pos_processamento Csv.calcular_vsaida.
Definition fit := fit Csv.calcular_vsaida.
End CsvFit.

(** A minimal pair of optimizers, used to exercise [fit]: the global search
    evaluates the objective once, at the lower corner of the bounds, and
    returns that corner; the local search evaluates it once, at its
    starting point, and returns that point. *)
Definition probe_optimizers : optimizers := {|
  differential_evolution :=
    fun bounds => Ask (map fst bounds) (fun _ => Done (map fst bounds));
  minimize := fun x0 _ => Ask x0 (fun _ => Done x0)
|}.

(** A point inside the hyper-rectangle of the bounds. *)
Definition within_bounds (bounds : list (R * R)) (p : list R) : Prop :=
  Forall2 (fun b x => fst b <= x <= snd b) bounds p.

(** A search that only asks for the objective inside the bounds, whatever
    values it is answered. *)
Inductive respects (bounds : list (R * R)) : search -> Prop :=
| respects_Done (x : list R) : respects bounds (Done x)
| respects_Abort (e : exn) : respects bounds (Abort e)
| respects_Ask (p : list R) (k : result float -> search) :
    within_bounds bounds p ->
    (forall v : result float, respects bounds (k v)) ->
    respects bounds (Ask p k).

(** ** The formula of the specification, over the reals *)

Module Spec.

Definition v_nernst (g : globals) (T : R) : R :=
  1.229 - 8.5e-4 * (T - 298.15)
  + 4.3085e-5 * T * (ln (pH2 g) + 0.5 * ln (pO2 g)).

Definition activation_loss (g : globals) (x1 x2 x3 x4 : R) (I T : R) : R :=
  x1 + x2 * T
  + x3 * T * ln (pO2 g / (5.08e6 * Rtrigo_def.exp (-498 / T)))
  + x4 * T * ln (I + 1e-6).

Definition ohmic_loss (Rint I : R) : R := Rint * I.

Definition concentration_loss (m n I : R) : R := m * Rtrigo_def.exp (n * I).

Definition v_cell (g : globals) (x1 x2 x3 x4 Rint m n : R) (I T : R) : R :=
  v_nernst g T - activation_loss g x1 x2 x3 x4 I T
  - ohmic_loss Rint I - concentration_loss m n I.

Definition output (g : globals) (x1 x2 x3 x4 Rint m n : R) (I T : R) : R :=
  IZR (N g) * v_cell g x1 x2 x3 x4 Rint m n I T.

(** The real domain of the formula: every logarithm has a positive
    argument and the quotient [-498/T] is defined. *)
Definition in_domain (g : globals) (I T : R) : Prop :=
  0 < pH2 g /\ 0 < pO2 g /\ T <> 0 /\ 0 < I + 1e-6.

(** The exponential of [x] is inside the range of float64. *)
Definition exp_in_range (x : R) : Prop :=
  underflow_threshold < Rtrigo_def.exp x < overflow_threshold.

(** The two exponents of the formula are moderate, which keeps both
    exponentials well inside the range of float64 ([exp 600] is about
    [3.8e260]). *)
Definition in_range (n I T : R) : Prop :=
  -600 <= n * I <= 600 /\ -600 <= -498 / T <= 600.



End Spec.

(** ** What the scripts compute, over the reals *)

(** The value of [csv.py]'s evaluator on the domain: the activation term
    enters with the opposite sign. *)
Definition csv_output (g : globals) (x1 x2 x3 x4 Rint m n : R) (I T : R)
  : R :=
  IZR (N g)
  * (Spec.v_nernst g T + Spec.activation_loss g x1 x2 x3 x4 I T
     - Spec.ohmic_loss Rint I - Spec.concentration_loss m n I).




(** NumPy's rule for two one-dimensional shapes, and the length of the
    result when it applies. *)
Definition compatible (a b : nat) : Prop :=
  a = b \/ a = 1%nat \/ b = 1%nat.

Definition broadcastable {A B : Type} (a : list A) (b : list B) : Prop :=
  compatible (length a) (length b).

Definition broadcast_length {A B : Type} (a : list A) (b : list B) : nat :=
  if Nat.eqb (length a) 1 then length b else length a.

(** ** Scalar operations on finite values *)

Ltac fin_arith := cbn [Np.add Np.sub Np.mul Np.neg Np.exp Np.square Np.abs].

Lemma Rsign_case_neg {A : Type} (x : R) (a b c : A) :
  x < 0 -> Rsign_case x a b c = a.
Proof.
  intros H. unfold Rsign_case.
  destruct (total_order_T x 0) as [[Hlt | Heq] | Hgt]; trivial; lra.
Qed.

Lemma Rsign_case_zero {A : Type} (x : R) (a b c : A) :
  x = 0 -> Rsign_case x a b c = b.
Proof.
  intros H. unfold Rsign_case.
  destruct (total_order_T x 0) as [[Hlt | Heq] | Hgt]; trivial; lra.
Qed.

Lemma Rsign_case_pos {A : Type} (x : R) (a b c : A) :
  0 < x -> Rsign_case x a b c = c.
Proof.
  intros H. unfold Rsign_case.
  destruct (total_order_T x 0) as [[Hlt | Heq] | Hgt]; trivial; lra.
Qed.

Example log_zero : log (Fin 0) = NInf.
Proof. simpl. now apply Rsign_case_zero. Qed.

Example div_by_zero : (Fin (-498) / Fin 0)%np = NInf.
Proof.
  simpl. destruct (Req_dec_T 0 0) as [_ | E]; [| now elim E].
  apply Rsign_case_neg. lra.
Qed.

Example zero_times_inf : (Fin 0 * PInf)%np = NaN.
Proof. simpl. now apply Rsign_case_zero. Qed.

Example inf_minus_inf : (PInf - PInf)%np = NaN.
Proof. reflexivity. Qed.

Example mean_empty : Np.mean [] = NaN.
Proof.
  unfold Np.mean, Np.sum. simpl.
  destruct (Req_dec_T 0 0) as [_ | E]; [| now elim E].
  now apply Rsign_case_zero.
Qed.

Example broadcast_scalar_left :
  broadcast2 Rplus [10] [1; 2; 3] = Ok [10 + 1; 10 + 2; 10 + 3].
Proof. reflexivity. Qed.

Example broadcast_mismatch :
  broadcast2 Rplus [10; 20] [1; 2; 3] = Raise ValueError.
Proof. reflexivity. Qed.

Example unpack_needs_seven_values :
  Main.calcular_vsaida main_globals [11.2] [306.55] [-1; 3e-3] = Raise ValueError.
Proof. reflexivity. Qed.

Lemma log_pos (x : R) : 0 < x -> log (Fin x) = Fin (ln x).
Proof. intros H. simpl. now apply Rsign_case_pos. Qed.

Lemma log_nonpos (x : R) : x <= 0 -> ~ is_finite (log (Fin x)).
Proof.
  intros H. simpl. unfold Rsign_case.
  destruct (total_order_T x 0) as [[Hlt | Heq] | Hgt]; simpl; auto; lra.
Qed.

Lemma div_Fin (x y : R) : y <> 0 -> (Fin x / Fin y)%np = Fin (x / y).
Proof.
  intros H. simpl. destruct (Req_dec_T y 0) as [E | _]; [contradiction | reflexivity].
Qed.

Lemma activation_log_arg_pos (p T : R) :
  0 < p -> 0 < p / (5.08e6 * Rtrigo_def.exp (-498 / T)).
Proof.
  intros Hp. apply Rdiv_lt_0_compat; trivial.
  apply Rmult_lt_0_compat; [lra | apply exp_pos].
Qed.

(** A special value is never lost by the arithmetic the scripts use. *)
Lemma neg_finite (a : float) : is_finite (- a)%np -> is_finite a.
Proof. destruct a; simpl; auto. Qed.

Lemma add_finite (a b : float) :
  is_finite (a + b)%np -> is_finite a /\ is_finite b.
Proof. destruct a, b; simpl; auto. Qed.

Lemma sub_finite (a b : float) :
  is_finite (a - b)%np -> is_finite a /\ is_finite b.
Proof.
  unfold Np.sub. intros H. apply add_finite in H as [Ha Hb].
  split; [assumption | now apply neg_finite].
Qed.

Lemma mul_finite (a b : float) :
  is_finite (a * b)%np -> is_finite a /\ is_finite b.
Proof.
  destruct a as [x| | |], b as [y| | |]; simpl; auto; unfold Rsign_case;
    destruct (total_order_T _ 0) as [[H | H] | H]; simpl; auto.
Qed.

Lemma square_finite (a : float) : is_finite (square a) -> is_finite a.
Proof. intros H. now apply mul_finite in H. Qed.

Lemma is_finite_inv (a : float) : is_finite a -> exists r, a = Fin r.
Proof. destruct a; simpl; intros H; try contradiction. now exists r. Qed.

(** ** The evaluators on one sample *)

Lemma exp_arg_finite (T : R) :
  T <> 0 ->
  (5.08e6 * exp (-498 / T))%np = Fin (5.08e6 * Rtrigo_def.exp (-498 / T)).
Proof. intros HT. rewrite div_Fin by assumption. reflexivity. Qed.

Lemma activation_log_finite (p T : R) :
  0 < p -> T <> 0 ->
  log (p / (5.08e6 * exp (-498 / T)))%np
  = Fin (ln (p / (5.08e6 * Rtrigo_def.exp (-498 / T)))).
Proof.
  intros Hp HT. rewrite exp_arg_finite by assumption.
  assert (H : 0 < 5.08e6 * Rtrigo_def.exp (-498 / T))
    by (apply Rmult_lt_0_compat; [lra | apply exp_pos]).
  rewrite div_Fin by lra.
  apply log_pos. now apply activation_log_arg_pos.
Qed.

Lemma current_log_finite (I : R) :
  0 < I + 1e-6 -> log (I + 1e-6)%np = Fin (ln (I + 1e-6)).
Proof. intros H. fin_arith. now apply log_pos. Qed.

Lemma main_v_saida_in_domain (g : globals) (x1 x2 x3 x4 Rint m n I T : R) :
  Spec.in_domain g I T ->
  Main.v_saida g x1 x2 x3 x4 Rint m n I T
  = Fin (Spec.output g x1 x2 x3 x4 Rint m n I T).
Proof.
  intros (HpH & HpO & HT & HI). unfold Main.v_saida. cbv zeta.
  rewrite activation_log_finite, current_log_finite by assumption.
  rewrite !log_pos by assumption.
  fin_arith. f_equal.
  unfold Spec.output, Spec.v_cell, Spec.v_nernst, Spec.activation_loss,
    Spec.ohmic_loss, Spec.concentration_loss.
  lra.
Qed.

(** [csv.py] subtracts the negated activation term: on the domain its value
    is the formula with the activation loss added. *)
Lemma csv_v_saida_in_domain (g : globals) (x1 x2 x3 x4 Rint m n I T : R) :
  Spec.in_domain g I T ->
  Csv.v_saida g x1 x2 x3 x4 Rint m n I T
  = Fin (csv_output g x1 x2 x3 x4 Rint m n I T).
Proof.
  intros (HpH & HpO & HT & HI). unfold Csv.v_saida. cbv zeta.
  rewrite activation_log_finite, current_log_finite by assumption.
  rewrite !log_pos by assumption.
  fin_arith. f_equal.
  unfold csv_output, Spec.v_nernst, Spec.activation_loss,
    Spec.ohmic_loss, Spec.concentration_loss.
  lra.
Qed.

(** Outside the domain some logarithm is special, and the special value
    reaches the result. *)
Lemma log_finite_inv (x : R) : is_finite (log (Fin x)) -> 0 < x.
Proof.
  intros H. destruct (Rlt_dec 0 x) as [Hx | Hx]; trivial.
  exfalso. apply (log_nonpos x); [lra | assumption].
Qed.

Lemma activation_log_finite_inv (p T : R) :
  is_finite (log (p / (5.08e6 * exp (-498 / T)))%np) -> T <> 0.
Proof.
  intros H HT. subst T. revert H.
  cbn [Np.div]. destruct (Req_dec_T 0 0) as [_ | E]; [| now elim E].
  rewrite Rsign_case_neg by lra. cbn [Np.exp Np.mul Np.div].
  destruct (Req_dec_T (5.08e6 * 0) 0) as [_ | E]; [| elim E; lra].
  unfold Rsign_case.
  destruct (total_order_T p 0) as [[Hp | Hp] | Hp]; simpl; auto.
Qed.

Lemma main_v_saida_finite_inv (g : globals) (x1 x2 x3 x4 Rint m n I T : R) :
  is_finite (Main.v_saida g x1 x2 x3 x4 Rint m n I T) ->
  Spec.in_domain g I T.
Proof.
  unfold Main.v_saida. cbv zeta. intros H.
  apply mul_finite in H as [_ H].
  apply sub_finite in H as [H _].
  apply sub_finite in H as [H _].
  apply add_finite in H as [Hn Ha].
  apply add_finite in Hn as [_ Hn].
  apply mul_finite in Hn as [_ Hn].
  apply add_finite in Hn as [HpH HpO].
  apply mul_finite in HpO as [_ HpO].
  apply neg_finite in Ha.
  apply add_finite in Ha as [Ha HI].
  apply mul_finite in HI as [_ HI].
  apply add_finite in Ha as [_ Ha].
  apply mul_finite in Ha as [_ Ha].
  repeat split.
  - now apply log_finite_inv.
  - now apply log_finite_inv.
  - now apply activation_log_finite_inv in Ha.
  - revert HI. fin_arith. apply log_finite_inv.
Qed.

Lemma csv_v_saida_finite_inv (g : globals) (x1 x2 x3 x4 Rint m n I T : R) :
  is_finite (Csv.v_saida g x1 x2 x3 x4 Rint m n I T) ->
  Spec.in_domain g I T.
Proof.
  unfold Csv.v_saida. cbv zeta. intros H.
  apply mul_finite in H as [_ H].
  apply sub_finite in H as [H _].
  apply sub_finite in H as [H _].
  apply sub_finite in H as [Hn Ha].
  apply add_finite in Hn as [_ Hn].
  apply mul_finite in Hn as [_ Hn].
  apply add_finite in Hn as [HpH HpO].
  apply mul_finite in HpO as [_ HpO].
  apply neg_finite in Ha.
  apply add_finite in Ha as [Ha HI].
  apply mul_finite in HI as [_ HI].
  apply add_finite in Ha as [_ Ha].
  apply mul_finite in Ha as [_ Ha].
  repeat split.
  - now apply log_finite_inv.
  - now apply log_finite_inv.
  - now apply activation_log_finite_inv in Ha.
  - revert HI. fin_arith. apply log_finite_inv.
Qed.

(** ** Arrays *)

Lemma broadcast2_same_length {A B C : Type} (f : A -> B -> C)
  (a : list A) (b : list B) :
  length a = length b -> broadcast2 f a b = Ok (zip_with f a b).
Proof.
  intros H. unfold broadcast2. now rewrite H, Nat.eqb_refl.
Qed.

Lemma zip_with_length {A B C : Type} (f : A -> B -> C) (a : list A) :
  forall b : list B, length a = length b -> length (zip_with f a b) = length a.
Proof.
  induction a as [| x a IH]; intros [| y b] H; simpl in *; try congruence.
  f_equal. apply IH. congruence.
Qed.




Lemma zip_with_ext_in {A B C : Type} (f f' : A -> B -> C) (a : list A) :
  forall b : list B,
    (forall x y, In (x, y) (combine a b) -> f x y = f' x y) ->
    zip_with f a b = zip_with f' a b.
Proof.
  induction a as [| x a IH]; intros [| y b] H; simpl; trivial.
  f_equal.
  - apply H. now left.
  - apply IH. intros x' y' Hin. apply H. now right.
Qed.

Lemma zip_with_Fin {A B : Type} (f : A -> B -> R) (a : list A) :
  forall b : list B,
    zip_with (fun x y => Fin (f x y)) a b = map Fin (zip_with f a b).
Proof.
  induction a as [| x a IH]; intros [| y b]; simpl; trivial.
  now rewrite IH.
Qed.

Lemma Forall2_combine_in {A B : Type} (P : A -> B -> Prop) (a : list A)
  (b : list B) (x : A) (y : B) :
  Forall2 P a b -> In (x, y) (combine a b) -> P x y.
Proof.
  induction 1 as [| x0 y0 a b H0 _ IH]; simpl; intros Hin.
  - contradiction.
  - destruct Hin as [E | Hin]; [congruence | now apply IH].
Qed.




(** ** The evaluators on arrays of samples in the domain *)

Lemma main_calcular_vsaida_in_domain
  (g : globals) (I T : list R) (x1 x2 x3 x4 Rint m n : R) :
  Forall2 (Spec.in_domain g) I T ->
  Main.calcular_vsaida g I T [x1; x2; x3; x4; Rint; m; n]
  = Ok (map Fin (zip_with (Spec.output g x1 x2 x3 x4 Rint m n) I T)).
Proof.
  intros H. unfold Main.calcular_vsaida.
  rewrite broadcast2_same_length by (eapply Forall2_length; eassumption).
  rewrite <- zip_with_Fin. f_equal. apply zip_with_ext_in.
  intros x y Hin. apply main_v_saida_in_domain.
  eapply Forall2_combine_in; eassumption.
Qed.

Lemma csv_calcular_vsaida_in_domain
  (g : globals) (I T : list R) (x1 x2 x3 x4 Rint m n : R) :
  Forall2 (Spec.in_domain g) I T ->
  Csv.calcular_vsaida g I T [x1; x2; x3; x4; Rint; m; n]
  = Ok (map Fin (zip_with (csv_output g x1 x2 x3 x4 Rint m n) I T)).
Proof.
  intros H. unfold Csv.calcular_vsaida.
  rewrite broadcast2_same_length by (eapply Forall2_length; eassumption).
  rewrite <- zip_with_Fin. f_equal. apply zip_with_ext_in.
  intros x y Hin. apply csv_v_saida_in_domain.
  eapply Forall2_combine_in; eassumption.
Qed.


(** ** C1: the evaluator of [__main__.py] computes the specified formula *)




(** ** Sums of residuals *)







(** ** C3: the objective *)




(** ** Special values in the objective *)

Lemma fold_add_finite (l : list float) :
  forall acc : float,
    is_finite (fold_left Np.add l acc) ->
    is_finite acc /\ Forall is_finite l.
Proof.
  induction l as [| x l IH]; intros acc H; simpl in H.
  - split; [assumption | constructor].
  - apply IH in H as [Hacc Hl]. apply add_finite in Hacc as [Hacc Hx].
    split; [assumption | now constructor].
Qed.

Lemma residuals_finite (ref : list float) :
  forall vs : list float,
    length ref = length vs ->
    Forall is_finite (map square (zip_with Np.sub ref vs)) ->
    Forall is_finite vs.
Proof.
  induction ref as [| r ref IH]; intros [| v vs] Hlen H;
    simpl in *; try discriminate; constructor.
  - inversion H as [| ? ? Hd _]; subst.
    apply square_finite in Hd. now apply sub_finite in Hd.
  - inversion H; subst. apply IH; [congruence | assumption].
Qed.

Lemma zip_with_in_domain (f : R -> R -> float) (g : globals) (I : list R) :
  (forall i t, is_finite (f i t) -> Spec.in_domain g i t) ->
  forall T : list R,
    length I = length T ->
    Forall is_finite (zip_with f I T) ->
    Forall2 (Spec.in_domain g) I T.
Proof.
  intros Hf. induction I as [| i I IH]; intros [| t T] Hlen H;
    simpl in *; try discriminate; constructor.
  - inversion H; subst. now apply Hf.
  - inversion H; subst. apply IH; [congruence | assumption].
Qed.

(** An objective built on an element-wise evaluator that is special outside
    the domain returns, without raising, a special value as soon as one
    sample is outside the domain. *)
Lemma objective_outside_domain
  (calc : evaluator) (f : R -> R -> float) (g : globals) (params : list R) :
  calc g (corrente g) (temperatura g) params
  = broadcast2 f (corrente g) (temperatura g) ->
  (forall i t, is_finite (f i t) -> Spec.in_domain g i t) ->
  length (corrente g) = length (temperatura g) ->
  length (vref g) = length (corrente g) ->
  ~ Forall2 (Spec.in_domain g) (corrente g) (temperatura g) ->
  exists v : float,
    func_objetivo calc g params = Ok v /\ ~ is_finite v.
Proof.
  intros Hcalc Hf HlenT HlenV Hout.
  unfold func_objetivo. rewrite Hcalc.
  rewrite broadcast2_same_length by assumption. simpl bind.
  assert (Hlen : length (map Fin (vref g))
                 = length (zip_with f (corrente g) (temperatura g))).
  { rewrite length_map, zip_with_length; congruence. }
  rewrite broadcast2_same_length by exact Hlen. simpl bind.
  eexists. split; [reflexivity |].
  intros Hfin. apply Hout. unfold Np.sum in Hfin.
  apply fold_add_finite in Hfin as [_ Hfin].
  apply residuals_finite in Hfin; [| exact Hlen].
  now apply (zip_with_in_domain f).
Qed.

(** ** C6: a sample outside the domain *)

Lemma log_neg (x : R) : x < 0 -> log (Fin x) = NaN.
Proof. intros H. simpl. now apply Rsign_case_neg. Qed.

(** C6, as stated, fails on a sample set with the current [-1]: the
    logarithm of [-1 + 1e-6] is [nan], and the objective returns [nan]. *)
Lemma func_objetivo_returns_nan :
  CsvFit.func_objetivo
    (csv_globals [(-1, 306.55, 52.2)] (limites main_globals))
    [-1; 3e-3; 5e-5; -1e-4; 3e-4; 1e-3; 0.1]
  = Ok NaN.
Proof.
  unfold CsvFit.func_objetivo, func_objetivo. simpl.
  unfold Csv.v_saida. cbv zeta.
  rewrite activation_log_finite by (simpl; lra).
  rewrite !log_pos by (simpl; lra).
  cbn [Np.add]. rewrite (log_neg (-1 + 1e-6)) by lra.
  reflexivity.
Qed.

(** C6 (amended). The objective has no penalty: on a sample set of three
    sequences of one length in which some sample is outside the domain of
    the formula, it returns for every seven-parameter vector, without
    raising, a value that is not finite ([nan] or an infinity); this holds
    in [__main__.py] and in [csv.py]. *)
Theorem func_objetivo_no_penalty
  (g : globals) (x1 x2 x3 x4 Rint m n : R) :
  length (corrente g) = length (temperatura g) ->
  length (vref g) = length (corrente g) ->
  ~ Forall2 (Spec.in_domain g) (corrente g) (temperatura g) ->
  (exists v : float,
     MainFit.func_objetivo g [x1; x2; x3; x4; Rint; m; n] = Ok v
     /\ ~ is_finite v)
  /\ (exists v : float,
        CsvFit.func_objetivo g [x1; x2; x3; x4; Rint; m; n] = Ok v
        /\ ~ is_finite v).
Proof.
  intros HlenT HlenV Hout. split.
  - apply (objective_outside_domain Main.calcular_vsaida
             (Main.v_saida g x1 x2 x3 x4 Rint m n)); trivial.
    intros i t. apply main_v_saida_finite_inv.
  - apply (objective_outside_domain Csv.calcular_vsaida
             (Csv.v_saida g x1 x2 x3 x4 Rint m n)); trivial.
    intros i t. apply csv_v_saida_finite_inv.
Qed.

Lemma func_objetivo_no_penalty_witness :
  (exists v : float,
     MainFit.func_objetivo
       (csv_globals [(11.2, 306.55, 52.2); (-1, 315.85, 51.1)]
          (limites main_globals))
       [-1; 3e-3; 5e-5; -1e-4; 3e-4; 1e-3; 0.1] = Ok v
     /\ ~ is_finite v)
  /\ (exists v : float,
        CsvFit.func_objetivo
          (csv_globals [(11.2, 306.55, 52.2); (-1, 315.85, 51.1)]
             (limites main_globals))
          [-1; 3e-3; 5e-5; -1e-4; 3e-4; 1e-3; 0.1] = Ok v
        /\ ~ is_finite v).
Proof.
  apply (func_objetivo_no_penalty
           (csv_globals [(11.2, 306.55, 52.2); (-1, 315.85, 51.1)]
              (limites main_globals))
           (-1) 3e-3 5e-5 (-1e-4) 3e-4 1e-3 0.1).
  - reflexivity.
  - reflexivity.
  - simpl. intros H.
    inversion H as [| ? ? ? ? _ H2]; subst.
    inversion H2 as [| ? ? ? ? Hd _]; subst.
    destruct Hd as (_ & _ & _ & Hd). lra.
Defined.

(** ** Bounds on the logarithms and exponentials of the model *)

Lemma exp_INR (k : nat) : Rtrigo_def.exp (INR k) = Rtrigo_def.exp 1 ^ k.
Proof.
  induction k as [| k IH].
  - simpl. apply exp_0.
  - rewrite S_INR, exp_plus, IH. simpl. ring.
Qed.

Lemma exp_nat_lower (k : nat) : 2 ^ k <= Rtrigo_def.exp (INR k).
Proof.
  rewrite exp_INR. apply pow_incr. pose proof (exp_ineq1 1). lra.
Qed.

Lemma exp_nat_upper (k : nat) : Rtrigo_def.exp (INR k) <= 3 ^ k.
Proof.
  rewrite exp_INR. apply pow_incr.
  split; [left; apply exp_pos | apply exp_le_3].
Qed.

Lemma ln_lower (a x : R) : Rtrigo_def.exp a < x -> a < ln x.
Proof.
  intros H. pose proof (exp_pos a) as Ha.
  rewrite <- (ln_exp a). apply ln_increasing; assumption.
Qed.

Lemma ln_upper (a x : R) : 0 < x -> x < Rtrigo_def.exp a -> ln x < a.
Proof.
  intros Hx H. rewrite <- (ln_exp a). now apply ln_increasing.
Qed.

Lemma exp_neg_upper (k k' c : R) :
  k' = - k -> 0 < c -> c <= Rtrigo_def.exp k -> Rtrigo_def.exp k' <= / c.
Proof.
  intros -> Hc H. rewrite exp_Ropp. now apply Rinv_le_contravar.
Qed.

Lemma exp_2_le_9 : Rtrigo_def.exp 2 <= 9.
Proof.
  pose proof (exp_nat_upper 2) as H.
  replace (INR 2) with 2 in H by (simpl; lra). simpl in H. lra.
Qed.

Lemma exp_3_ge_8 : 8 <= Rtrigo_def.exp 3.
Proof.
  pose proof (exp_nat_lower 3) as H.
  replace (INR 3) with 3 in H by (simpl; lra). simpl in H. lra.
Qed.

Lemma exp_4_ge_16 : 16 <= Rtrigo_def.exp 4.
Proof.
  pose proof (exp_nat_lower 4) as H.
  replace (INR 4) with 4 in H by (simpl; lra). simpl in H. lra.
Qed.

Lemma exp_23_gt : 5.08e6 < Rtrigo_def.exp 23.
Proof.
  pose proof (exp_nat_lower 23) as H.
  replace (INR 23) with 23 in H by (simpl; lra). simpl in H. lra.
Qed.

Lemma ln_pO2_bounds : -3 < ln 0.21 < 0.
Proof.
  split.
  - apply ln_lower.
    pose proof (exp_neg_upper 3 (-3) 8 ltac:(lra) ltac:(lra) exp_3_ge_8).
    lra.
  - rewrite <- ln_1. apply ln_increasing; lra.
Qed.


Lemma ln_5080000_bounds : 2 < ln 5.08e6 < 23.
Proof.
  split.
  - apply ln_lower. pose proof exp_2_le_9. lra.
  - apply ln_upper; [lra | apply exp_23_gt].
Qed.

Lemma ln_current_1_bounds : 0 < ln (11.2 + 1e-6) < 4.
Proof.
  split.
  - rewrite <- ln_1. apply ln_increasing; lra.
  - apply ln_upper; [lra |]. pose proof exp_4_ge_16. lra.
Qed.

Lemma activation_log_split (p T : R) :
  0 < p -> T <> 0 ->
  ln (p / (5.08e6 * Rtrigo_def.exp (-498 / T)))
  = ln p - ln 5.08e6 + 498 / T.
Proof.
  intros Hp HT.
  pose proof (exp_pos (-498 / T)) as He.
  assert (Hd : 0 < 5.08e6 * Rtrigo_def.exp (-498 / T))
    by (apply Rmult_lt_0_compat; lra).
  unfold Rdiv at 1.
  rewrite ln_mult by (try apply Rinv_0_lt_compat; assumption).
  rewrite ln_Rinv by assumption.
  rewrite ln_mult by lra. rewrite ln_exp. field. exact HT.
Qed.

(** The activation term of the first sample of [__main__.py] at a point
    inside its bounds. *)
Lemma activation_loss_sample_1 (g : globals) :
  pO2 g = 0.21 ->
  -0.61 < Spec.activation_loss g (-1) 3e-3 5e-5 (-1e-4) 11.2 306.55 < -0.08.
Proof.
  intros HpO. unfold Spec.activation_loss. rewrite HpO.
  rewrite activation_log_split by lra.
  pose proof ln_pO2_bounds. pose proof ln_5080000_bounds.
  pose proof ln_current_1_bounds. lra.
Qed.

Lemma csv_output_minus_output (g : globals) (x1 x2 x3 x4 Rint m n I T : R) :
  csv_output g x1 x2 x3 x4 Rint m n I T
  - Spec.output g x1 x2 x3 x4 Rint m n I T
  = 2 * IZR (N g) * Spec.activation_loss g x1 x2 x3 x4 I T.
Proof. unfold csv_output, Spec.output, Spec.v_cell. ring. Qed.

(** ** C2: the two evaluators *)

(** C2 fails on the code.  At the first sample of [__main__.py] and a
    parameter vector inside its bounds the two evaluators return different
    voltages: [csv.py] is lower by [2 * N] times the activation term, more
    than 9.6 V here. *)
Theorem sign_convention_differs :
  exists a b : R,
    Main.calcular_vsaida main_globals [11.2] [306.55]
      [-1; 3e-3; 5e-5; -1e-4; 3e-4; 1e-3; 0.1] = Ok [Fin a]
    /\ Csv.calcular_vsaida main_globals [11.2] [306.55]
         [-1; 3e-3; 5e-5; -1e-4; 3e-4; 1e-3; 0.1] = Ok [Fin b]
    /\ b < a - 9.6.
Proof.
  assert (Hdom : Forall2 (Spec.in_domain main_globals) [11.2] [306.55]).
  { repeat constructor; simpl; lra. }
  rewrite main_calcular_vsaida_in_domain, csv_calcular_vsaida_in_domain
    by exact Hdom.
  do 2 eexists. split; [reflexivity | split; [reflexivity |]].
  pose proof (csv_output_minus_output main_globals
                (-1) 3e-3 5e-5 (-1e-4) 3e-4 1e-3 0.1 11.2 306.55) as Hd.
  pose proof (activation_loss_sample_1 main_globals eq_refl) as Ha.
  simpl N in Hd. lra.
Qed.

(** ** Post-processing on finite predictions *)










(** ** C5: percent error, mean percent error and power *)




(** ** C7: input validation *)

Lemma fit_first_evaluation
  (calc : evaluator) (o : optimizers) (g : globals) (p : list R)
  (k : result float -> search) :
  differential_evolution o (limites g) = Ask p k ->
  exists (t : list (list R)) (r : result fit_result),
    fit calc o g = (p :: t, r).
Proof.
  intros H. unfold fit. rewrite H. cbn [run].
  destruct (run (func_objetivo calc g) (k (func_objetivo calc g p)))
    as [t1 [x | e]].
  - destruct (run (func_objetivo calc g) (minimize o x (limites g)))
      as [t2 [x' | e]]; simpl; eauto.
  - eauto.
Qed.

Lemma func_objetivo_empty_samples
  (g : globals) (x1 x2 x3 x4 Rint m n : R) :
  corrente g = [] -> temperatura g = [] -> vref g = [] ->
  MainFit.func_objetivo g [x1; x2; x3; x4; Rint; m; n] = Ok (Fin 0)
  /\ CsvFit.func_objetivo g [x1; x2; x3; x4; Rint; m; n] = Ok (Fin 0).
Proof.
  intros HI HT HV.
  unfold MainFit.func_objetivo, CsvFit.func_objetivo, func_objetivo.
  rewrite HI, HT, HV. split; reflexivity.
Qed.

(** C7, as stated, fails on an empty sample set: nothing is checked, the
    objective (the empty sum, 0) is evaluated at every point the two
    searches ask for, and the fit returns a result. *)
Lemma fit_accepts_empty_sample_set :
  exists r : fit_result,
    CsvFit.fit probe_optimizers (csv_globals [] (limites main_globals))
    = ([[-1.2; 1e-3; 3.6e-5; -2.6e-4; 1e-4; 1.972e-4; 0.03];
        [-1.2; 1e-3; 3.6e-5; -2.6e-4; 1e-4; 1.972e-4; 0.03]],
       Ok r).
Proof. eexists. reflexivity. Qed.

(** C7 (amended). The scripts check nothing before the search: whatever
    the bounds and the samples are, the first point at which the global
    search asks for the objective is a point at which the objective is
    evaluated, in [__main__.py] and in [csv.py]. *)
Theorem fit_no_validation
  (o : optimizers) (g : globals) (p : list R) (k : result float -> search) :
  differential_evolution o (limites g) = Ask p k ->
  (exists (t : list (list R)) (r : result fit_result),
     MainFit.fit o g = (p :: t, r))
  /\ (exists (t : list (list R)) (r : result fit_result),
        CsvFit.fit o g = (p :: t, r)).
Proof.
  intros H. split; eapply fit_first_evaluation; eassumption.
Qed.

Lemma fit_no_validation_witness :
  (exists (t : list (list R)) (r : result fit_result),
     MainFit.fit probe_optimizers
       (csv_globals [(11.2, 306.55, 52.2)] degenerate_limites)
     = ([-0.8; 1e-3; 3.6e-5; -2.6e-4; 1e-4; 1.972e-4; 0.03] :: t, r))
  /\ (exists (t : list (list R)) (r : result fit_result),
        CsvFit.fit probe_optimizers
          (csv_globals [(11.2, 306.55, 52.2)] degenerate_limites)
        = ([-0.8; 1e-3; 3.6e-5; -2.6e-4; 1e-4; 1.972e-4; 0.03] :: t, r)).
Proof.
  apply (fit_no_validation probe_optimizers
           (csv_globals [(11.2, 306.55, 52.2)] degenerate_limites)
           [-0.8; 1e-3; 3.6e-5; -2.6e-4; 1e-4; 1.972e-4; 0.03]
           (fun _ => Done [-0.8; 1e-3; 3.6e-5; -2.6e-4; 1e-4; 1.972e-4; 0.03])).
  reflexivity.
Defined.

(** ** The bounds during the search

    Whether a search stays inside the bounds it is given is a property of
    SciPy.  What the scripts contribute is that both searches are given the
    same [limites]. *)

Lemma run_respects (f : list R -> result float) (bounds : list (R * R))
  (s : search) :
  respects bounds s -> Forall (within_bounds bounds) (fst (run f s)).
Proof.
  induction 1 as [x | e | p k Hp _ IH]; simpl; try constructor.
  specialize (IH (f p)). destruct (run f (k (f p))) as [t r]. simpl in *.
  now constructor.
Qed.

Lemma fit_respects (calc : evaluator) (o : optimizers) (g : globals) :
  (forall b, respects b (differential_evolution o b)) ->
  (forall x0 b, respects b (minimize o x0 b)) ->
  Forall (within_bounds (limites g)) (fst (fit calc o g)).
Proof.
  intros Hde Hmin. unfold fit.
  pose proof (run_respects (func_objetivo calc g) (limites g) _
                (Hde (limites g))) as H1.
  destruct (run (func_objetivo calc g)
              (differential_evolution o (limites g))) as [t1 [x | e]];
    simpl in *; trivial.
  pose proof (run_respects (func_objetivo calc g) (limites g) _
                (Hmin x (limites g))) as H2.
  destruct (run (func_objetivo calc g) (minimize o x (limites g)))
    as [t2 [x' | e]]; simpl in *; apply Forall_app; now split.
Qed.

(** ** Shapes: when the evaluators and the objective raise *)

Lemma broadcast2_ok {A B C : Type} (f : A -> B -> C) (a : list A)
  (b : list B) :
  broadcastable a b ->
  exists c : list C,
    broadcast2 f a b = Ok c /\ length c = broadcast_length a b.
Proof.
  unfold broadcastable, compatible, broadcast2, broadcast_length.
  destruct (Nat.eqb (length a) (length b)) eqn:E.
  - intros _. apply Nat.eqb_eq in E. eexists. split; [reflexivity |].
    rewrite zip_with_length by assumption.
    destruct (Nat.eqb (length a) 1) eqn:E1; [| reflexivity].
    apply Nat.eqb_eq in E1. congruence.
  - apply Nat.eqb_neq in E. intros [H | [H | H]]; [contradiction | |].
    + destruct a as [| x [| x' a]]; try discriminate.
      eexists. split; [reflexivity |]. now rewrite length_map.
    + destruct b as [| y [| y' b]]; try discriminate.
      destruct a as [| x [| x' a]].
      * eexists. split; reflexivity.
      * now elim E.
      * eexists. split; [reflexivity |]. now rewrite length_map.
Qed.

Lemma broadcast2_raise {A B C : Type} (f : A -> B -> C) (a : list A)
  (b : list B) :
  ~ broadcastable a b -> broadcast2 f a b = Raise ValueError.
Proof.
  unfold broadcastable, compatible, broadcast2. intros H.
  destruct (Nat.eqb (length a) (length b)) eqn:E.
  - apply Nat.eqb_eq in E. elim H. now left.
  - destruct a as [| x [| x' a]]; destruct b as [| y [| y' b]];
      try reflexivity; elim H; simpl; auto.
Qed.

Lemma seven_values (p : list R) :
  length p = 7%nat ->
  exists x1 x2 x3 x4 Rint m n : R, p = [x1; x2; x3; x4; Rint; m; n].
Proof.
  intros H.
  destruct p as [| x1 [| x2 [| x3 [| x4 [| x5 [| x6 [| x7 [| x8 p]]]]]]]];
    try discriminate.
  now exists x1, x2, x3, x4, x5, x6, x7.
Qed.

Lemma main_unpack_raises (g : globals) (I T p : list R) :
  length p <> 7%nat -> Main.calcular_vsaida g I T p = Raise ValueError.
Proof.
  intros H.
  destruct p as [| x1 [| x2 [| x3 [| x4 [| x5 [| x6 [| x7 [| x8 p]]]]]]]];
    try reflexivity.
  now elim H.
Qed.

Lemma csv_unpack_raises (g : globals) (I T p : list R) :
  length p <> 7%nat -> Csv.calcular_vsaida g I T p = Raise ValueError.
Proof.
  intros H.
  destruct p as [| x1 [| x2 [| x3 [| x4 [| x5 [| x6 [| x7 [| x8 p]]]]]]]];
    try reflexivity.
  now elim H.
Qed.

Lemma broadcastable_dec {A B : Type} (a : list A) (b : list B) :
  broadcastable a b \/ ~ broadcastable a b.
Proof.
  unfold broadcastable, compatible.
  destruct (Nat.eq_dec (length a) (length b));
    destruct (Nat.eq_dec (length a) 1);
    destruct (Nat.eq_dec (length b) 1); tauto.
Qed.

(** X1. [calcular_vsaida] raises exactly when the parameter array does not
    hold seven values or the shapes of [I] and [T] cannot be broadcast;
    otherwise it returns an array of the broadcast length.  This holds in
    [__main__.py] and in [csv.py]. *)
Theorem calcular_vsaida_shapes (g : globals) (I T p : list R) :
  (Main.calcular_vsaida g I T p = Raise ValueError
   <-> length p <> 7%nat \/ ~ broadcastable I T)
  /\ (Csv.calcular_vsaida g I T p = Raise ValueError
      <-> length p <> 7%nat \/ ~ broadcastable I T)
  /\ (length p = 7%nat -> broadcastable I T ->
      exists vs vs' : list float,
        Main.calcular_vsaida g I T p = Ok vs
        /\ Csv.calcular_vsaida g I T p = Ok vs'
        /\ length vs = broadcast_length I T
        /\ length vs' = broadcast_length I T).
Proof.
  assert (Hok : length p = 7%nat -> broadcastable I T ->
                exists vs vs' : list float,
                  Main.calcular_vsaida g I T p = Ok vs
                  /\ Csv.calcular_vsaida g I T p = Ok vs'
                  /\ length vs = broadcast_length I T
                  /\ length vs' = broadcast_length I T).
  { intros Hp Hb.
    destruct (seven_values p Hp) as (x1 & x2 & x3 & x4 & Rint & m & n & ->).
    destruct (broadcast2_ok (Main.v_saida g x1 x2 x3 x4 Rint m n) I T Hb)
      as (vs & Hvs & Hlen).
    destruct (broadcast2_ok (Csv.v_saida g x1 x2 x3 x4 Rint m n) I T Hb)
      as (vs' & Hvs' & Hlen').
    now exists vs, vs'. }
  split; [| split; [| exact Hok]].
  - split.
    + intros Hr.
      destruct (Nat.eq_dec (length p) 7) as [Hp | Hp]; [| now left].
      destruct (broadcastable_dec I T) as [Hb | Hb]; [| now right].
      destruct (Hok Hp Hb) as (vs & _ & Hvs & _). congruence.
    + intros [Hp | Hb]; [now apply main_unpack_raises |].
      destruct (Nat.eq_dec (length p) 7) as [Hp | Hp];
        [| now apply main_unpack_raises].
      destruct (seven_values p Hp) as (x1 & x2 & x3 & x4 & Rint & m & n & ->).
      now apply broadcast2_raise.
  - split.
    + intros Hr.
      destruct (Nat.eq_dec (length p) 7) as [Hp | Hp]; [| now left].
      destruct (broadcastable_dec I T) as [Hb | Hb]; [| now right].
      destruct (Hok Hp Hb) as (vs & vs' & _ & Hvs & _). congruence.
    + intros [Hp | Hb]; [now apply csv_unpack_raises |].
      destruct (Nat.eq_dec (length p) 7) as [Hp | Hp];
        [| now apply csv_unpack_raises].
      destruct (seven_values p Hp) as (x1 & x2 & x3 & x4 & Rint & m & n & ->).
      now apply broadcast2_raise.
Qed.

Lemma broadcast2_single_r {A B C : Type} (f : A -> B -> C) (a : list A)
  (y : B) :
  broadcast2 f a [y] = Ok (map (fun x => f x y) a).
Proof.
  destruct a as [| x [| x' a]]; reflexivity.
Qed.

Lemma broadcast2_single_l {A B C : Type} (f : A -> B -> C) (x : A)
  (b : list B) :
  broadcast2 f [x] b = Ok (map (f x) b).
Proof.
  destruct b as [| y [| y' b]]; reflexivity.
Qed.

Lemma zip_with_repeat_r {A B C : Type} (f : A -> B -> C) (y : B)
  (a : list A) :
  zip_with f a (repeat y (length a)) = map (fun x => f x y) a.
Proof.
  induction a as [| x a IH]; simpl; [reflexivity | now rewrite IH].
Qed.

Lemma zip_with_repeat_l {A B C : Type} (f : A -> B -> C) (x : A)
  (b : list B) :
  zip_with f (repeat x (length b)) b = map (f x) b.
Proof.
  induction b as [| y b IH]; simpl; [reflexivity | now rewrite IH].
Qed.

Lemma broadcast2_repeat_r {A B C : Type} (f : A -> B -> C) (y : B)
  (a : list A) :
  broadcast2 f a [y] = broadcast2 f a (repeat y (length a)).
Proof.
  rewrite broadcast2_single_r.
  rewrite broadcast2_same_length by now rewrite repeat_length.
  now rewrite zip_with_repeat_r.
Qed.

Lemma broadcast2_repeat_l {A B C : Type} (f : A -> B -> C) (x : A)
  (b : list B) :
  broadcast2 f [x] b = broadcast2 f (repeat x (length b)) b.
Proof.
  rewrite broadcast2_single_l.
  rewrite broadcast2_same_length by now rewrite repeat_length.
  now rewrite zip_with_repeat_l.
Qed.

(** X2. A one-element temperature array stands for that temperature at
    every current, and a one-element current array for that current at
    every temperature: the evaluators return what they return on the array
    repeated to the length of the other one, in both files and for every
    parameter array. *)
Theorem calcular_vsaida_broadcast_single
  (g : globals) (I T p : list R) (i t : R) :
  Main.calcular_vsaida g I [t] p
  = Main.calcular_vsaida g I (repeat t (length I)) p
  /\ Main.calcular_vsaida g [i] T p
     = Main.calcular_vsaida g (repeat i (length T)) T p
  /\ Csv.calcular_vsaida g I [t] p
     = Csv.calcular_vsaida g I (repeat t (length I)) p
  /\ Csv.calcular_vsaida g [i] T p
     = Csv.calcular_vsaida g (repeat i (length T)) T p.
Proof.
  destruct (Nat.eq_dec (length p) 7) as [Hp | Hp].
  - destruct (seven_values p Hp) as (x1 & x2 & x3 & x4 & Rint & m & n & ->).
    unfold Main.calcular_vsaida, Csv.calcular_vsaida.
    repeat split;
      first [apply broadcast2_repeat_r | apply broadcast2_repeat_l].
  - rewrite !main_unpack_raises, !csv_unpack_raises by assumption.
    repeat split.
Qed.

(** ** The two sign conventions *)

Lemma Rsign_case_opp {A : Type} (x : R) (a b c : A) :
  Rsign_case (- x) a b c = Rsign_case x c b a.
Proof.
  unfold Rsign_case.
  destruct (total_order_T (- x) 0) as [[H | H] | H];
    destruct (total_order_T x 0) as [[H' | H'] | H']; trivial; lra.
Qed.

Lemma neg_Rsign_case (x : R) (a b c : float) :
  (- Rsign_case x a b c)%np = Rsign_case x (- a)%np (- b)%np (- c)%np.
Proof.
  unfold Rsign_case. now destruct (total_order_T x 0) as [[H | H] | H].
Qed.

Lemma neg_neg (a : float) : (- - a)%np = a.
Proof. destruct a; simpl; trivial. f_equal. lra. Qed.

Lemma neg_add (a b : float) : (- (a + b))%np = (- a + - b)%np.
Proof. destruct a, b; simpl; trivial. f_equal. lra. Qed.

Lemma mul_neg_l (a b : float) : (- a * b)%np = (- (a * b))%np.
Proof.
  destruct a as [x | | |], b as [y | | |]; simpl; trivial;
    rewrite ?Rsign_case_opp, ?neg_Rsign_case; simpl; trivial.
  f_equal. lra.
Qed.

Lemma csv_v_saida_negated (g : globals) (x1 x2 x3 x4 Rint m n I T : R) :
  Csv.v_saida g (- x1) (- x2) (- x3) (- x4) Rint m n I T
  = Main.v_saida g x1 x2 x3 x4 Rint m n I T.
Proof.
  unfold Csv.v_saida, Main.v_saida. cbv zeta.
  change (Fin (- x1)) with (- Fin x1)%np.
  change (Fin (- x2)) with (- Fin x2)%np.
  change (Fin (- x3)) with (- Fin x3)%np.
  change (Fin (- x4)) with (- Fin x4)%np.
  rewrite !mul_neg_l, <- !neg_add.
  unfold Np.sub at 3. now rewrite !neg_neg.
Qed.

Lemma broadcast2_ext {A B C : Type} (f f' : A -> B -> C) (a : list A)
  (b : list B) :
  (forall x y, f x y = f' x y) -> broadcast2 f a b = broadcast2 f' a b.
Proof.
  intros H. unfold broadcast2.
  rewrite (zip_with_ext_in f f' a b) by auto.
  destruct (Nat.eqb (length a) (length b)); trivial.
  assert (Hl : forall x, map (f x) b = map (f' x) b)
    by (intros x; apply map_ext; intros; apply H).
  assert (Hr : forall y, map (fun x => f x y) a = map (fun x => f' x y) a)
    by (intros y; apply map_ext; intros; apply H).
  destruct a as [| x [| x' a]].
  - destruct b as [| y [| y' b]]; trivial.
  - now rewrite Hl.
  - destruct b as [| y [| y' b]]; trivial. now rewrite Hr.
Qed.

(** X4. The evaluator of [csv.py] is the evaluator of [__main__.py] with
    the four activation parameters negated: on every input, special values
    and exceptions included, [csv.py] at [(-x1, -x2, -x3, -x4, Rint, m, n)]
    returns what [__main__.py] returns at [(x1, x2, x3, x4, Rint, m, n)],
    and so do the two objectives. *)
Theorem csv_is_main_with_negated_activation
  (g : globals) (I T : list R) (x1 x2 x3 x4 Rint m n : R) :
  Csv.calcular_vsaida g I T [- x1; - x2; - x3; - x4; Rint; m; n]
  = Main.calcular_vsaida g I T [x1; x2; x3; x4; Rint; m; n]
  /\ CsvFit.func_objetivo g [- x1; - x2; - x3; - x4; Rint; m; n]
     = MainFit.func_objetivo g [x1; x2; x3; x4; Rint; m; n].
Proof.
  assert (H : forall I T,
             Csv.calcular_vsaida g I T [- x1; - x2; - x3; - x4; Rint; m; n]
             = Main.calcular_vsaida g I T [x1; x2; x3; x4; Rint; m; n]).
  { intros I' T'. unfold Csv.calcular_vsaida, Main.calcular_vsaida.
    apply broadcast2_ext. intros i t. apply csv_v_saida_negated. }
  split; [apply H |].
  unfold CsvFit.func_objetivo, MainFit.func_objetivo, func_objetivo.
  now rewrite H.
Qed.

(** ** How the predicted voltage depends on the parameters *)

Lemma zip_with_zip_with_l {A B C D : Type} (f : A -> B -> C)
  (h : C -> A -> D) (a : list A) :
  forall b : list B,
    zip_with h (zip_with f a b) a = zip_with (fun x y => h (f x y) x) a b.
Proof.
  induction a as [| x a IH]; intros [| y b]; simpl; trivial.
  now rewrite IH.
Qed.


Lemma zip_with_ext {A B C : Type} (f f' : A -> B -> C) (a : list A)
  (b : list B) :
  (forall x y, f x y = f' x y) -> zip_with f a b = zip_with f' a b.
Proof. intros H. apply zip_with_ext_in. auto. Qed.



(** ** The order of the samples *)

Lemma add_comm (a b : float) : (a + b)%np = (b + a)%np.
Proof. destruct a, b; simpl; trivial. f_equal. lra. Qed.

Lemma add_assoc (a b c : float) : (a + b + c)%np = (a + (b + c))%np.
Proof. destruct a, b, c; simpl; trivial. f_equal. lra. Qed.

Lemma fold_add_permutation (l l' : list float) :
  Permutation l l' ->
  forall acc : float, fold_left Np.add l acc = fold_left Np.add l' acc.
Proof.
  induction 1 as [| x l l' _ IH | x y l | l l' l'' _ IH1 _ IH2];
    intros acc; simpl.
  - reflexivity.
  - apply IH.
  - f_equal. rewrite !add_assoc. f_equal. apply add_comm.
  - now rewrite IH1.
Qed.

Lemma zip_with_map_same {S A B C : Type} (f : A -> B -> C) (h1 : S -> A)
  (h2 : S -> B) (e : list S) :
  zip_with f (map h1 e) (map h2 e) = map (fun s => f (h1 s) (h2 s)) e.
Proof.
  induction e as [| s e IH]; simpl; [reflexivity | now rewrite IH].
Qed.

(** The objective on samples given as rows, as [csv.py] reads them. *)
Lemma objective_on_rows
  (calc : evaluator) (f : R -> R -> float) (e : list (R * R * R))
  (lim : list (R * R)) (p : list R) :
  (forall I T, calc (csv_globals e lim) I T p = broadcast2 f I T) ->
  func_objetivo calc (csv_globals e lim) p
  = Ok (Np.sum
          (map (fun s =>
                  square (Fin (snd s) - f (fst (fst s)) (snd (fst s)))%np)
             e)).
Proof.
  intros Hcalc. unfold func_objetivo. rewrite Hcalc. simpl.
  rewrite broadcast2_same_length by now rewrite !length_map.
  rewrite zip_with_map_same. cbn [bind].
  rewrite broadcast2_same_length by now rewrite !length_map.
  cbn [bind]. rewrite map_map.
  rewrite (zip_with_map_same Np.sub (fun s => Fin (snd s))
             (fun s => f (fst (fst s)) (snd (fst s))) e).
  now rewrite map_map.
Qed.

Lemma map_ext_permutation {S : Type} (h h' : S -> float) (e e' : list S) :
  (forall s, h s = h' s) -> Permutation e e' ->
  Np.sum (map h e) = Np.sum (map h' e').
Proof.
  intros Hh Hperm. unfold Np.sum.
  rewrite (map_ext h h' Hh).
  apply fold_add_permutation. now apply Permutation_map.
Qed.

(** X8. In real arithmetic the objective does not depend on the order of
    the samples: on two sample tables that are permutations of each other
    (and whatever the bounds), it returns the same value, or raises
    alike, at every parameter array, in both files. *)
Theorem func_objetivo_sample_order
  (e e' : list (R * R * R)) (lim lim' : list (R * R)) (p : list R) :
  Permutation e e' ->
  MainFit.func_objetivo (csv_globals e lim) p
  = MainFit.func_objetivo (csv_globals e' lim') p
  /\ CsvFit.func_objetivo (csv_globals e lim) p
     = CsvFit.func_objetivo (csv_globals e' lim') p.
Proof.
  intros Hperm.
  destruct (Nat.eq_dec (length p) 7) as [Hp | Hp].
  - destruct (seven_values p Hp) as (x1 & x2 & x3 & x4 & Rint & m & n & ->).
    unfold MainFit.func_objetivo, CsvFit.func_objetivo. split.
    + rewrite (objective_on_rows Main.calcular_vsaida
                 (Main.v_saida (csv_globals e lim) x1 x2 x3 x4 Rint m n))
        by reflexivity.
      rewrite (objective_on_rows Main.calcular_vsaida
                 (Main.v_saida (csv_globals e' lim') x1 x2 x3 x4 Rint m n))
        by reflexivity.
      f_equal. now apply map_ext_permutation.
    + rewrite (objective_on_rows Csv.calcular_vsaida
                 (Csv.v_saida (csv_globals e lim) x1 x2 x3 x4 Rint m n))
        by reflexivity.
      rewrite (objective_on_rows Csv.calcular_vsaida
                 (Csv.v_saida (csv_globals e' lim') x1 x2 x3 x4 Rint m n))
        by reflexivity.
      f_equal. now apply map_ext_permutation.
  - unfold MainFit.func_objetivo, CsvFit.func_objetivo, func_objetivo.
    rewrite !main_unpack_raises, !csv_unpack_raises by assumption.
    split; reflexivity.
Qed.

Lemma func_objetivo_sample_order_witness :
  MainFit.func_objetivo
    (csv_globals [(11.2, 306.55, 52.2); (22.6, 315.85, 51.1);
                  (35.4, 322.45, 49.2)] (limites main_globals))
    [-1; 3e-3; 5e-5; -1e-4; 3e-4; 1e-3; 0.1]
  = MainFit.func_objetivo
      (csv_globals [(35.4, 322.45, 49.2); (11.2, 306.55, 52.2);
                    (22.6, 315.85, 51.1)] (limites main_globals))
      [-1; 3e-3; 5e-5; -1e-4; 3e-4; 1e-3; 0.1]
  /\ CsvFit.func_objetivo
       (csv_globals [(11.2, 306.55, 52.2); (22.6, 315.85, 51.1);
                     (35.4, 322.45, 49.2)] (limites main_globals))
       [-1; 3e-3; 5e-5; -1e-4; 3e-4; 1e-3; 0.1]
     = CsvFit.func_objetivo
         (csv_globals [(35.4, 322.45, 49.2); (11.2, 306.55, 52.2);
                       (22.6, 315.85, 51.1)] (limites main_globals))
         [-1; 3e-3; 5e-5; -1e-4; 3e-4; 1e-3; 0.1].
Proof.
  apply (func_objetivo_sample_order
           [(11.2, 306.55, 52.2); (22.6, 315.85, 51.1); (35.4, 322.45, 49.2)]
           [(35.4, 322.45, 49.2); (11.2, 306.55, 52.2); (22.6, 315.85, 51.1)]).
  apply Permutation_sym.
  apply (Permutation_cons_app [(11.2, 306.55, 52.2); (22.6, 315.85, 51.1)] []).
  apply Permutation_refl.
Defined.

(** ** Percent errors and the objective *)








(** ** Post-processing at the edges *)

Lemma div_by_zero_not_finite (a : float) : ~ is_finite (a / Fin 0)%np.
Proof.
  destruct a as [x | | |]; simpl; auto.
  - destruct (Req_dec_T 0 0) as [_ | E]; [| now elim E].
    unfold Rsign_case.
    destruct (total_order_T x 0) as [[H | H] | H]; simpl; auto.
  - rewrite Rsign_case_zero by reflexivity. simpl. auto.
  - rewrite Rsign_case_zero by reflexivity. simpl. auto.
Qed.

Lemma abs_finite (a : float) : is_finite (Np.abs a) -> is_finite a.
Proof. destruct a; simpl; auto. Qed.

Lemma div_finite_l (a b : float) : is_finite (a / b)%np -> is_finite a.
Proof.
  destruct a as [x | | |], b as [y | | |]; simpl; auto; unfold Rsign_case;
    destruct (total_order_T _ 0) as [[H | H] | H]; simpl; auto.
Qed.

Lemma erro_perc_finite_nonzero (ref : list R) :
  forall v : list float,
    length ref = length v ->
    Forall is_finite
      (map (fun e => (Np.abs e * 100)%np)
         (zip_with Np.div (zip_with Np.sub (map Fin ref) v) (map Fin ref))) ->
    Forall (fun r => r <> 0) ref.
Proof.
  induction ref as [| r ref IH]; intros [| x v] Hlen H;
    simpl in *; try discriminate; constructor.
  - inversion H as [| ? ? Hd _]; subst. intros ->.
    apply mul_finite in Hd as [Hd _]. apply abs_finite in Hd.
    now apply div_by_zero_not_finite in Hd.
  - inversion H; subst. apply (IH v); [congruence | assumption].
Qed.

Lemma zero_reference_not_finite
  (calc : evaluator) (g : globals) (params : list R) (v : list float) :
  calc g (corrente g) (temperatura g) params = Ok v ->
  length v = length (corrente g) ->
  length (vref g) = length (corrente g) ->
  In 0 (vref g) ->
  exists r : fit_result,
    pos_processamento calc g params = Ok r
    /\ ~ Forall is_finite (erro_perc r)
    /\ ~ is_finite (erro_medio r).
Proof.
  intros Hcalc Hv Hvref Hin.
  unfold pos_processamento. rewrite Hcalc. cbn [bind].
  repeat (rewrite broadcast2_same_length
            by (rewrite ?length_map, ?zip_with_length;
                rewrite ?length_map; congruence);
          cbn [bind]).
  eexists. split; [reflexivity |]. cbn [erro_perc erro_medio].
  assert (Hno : ~ Forall is_finite
                  (map (fun e => (Np.abs e * 100)%np)
                     (zip_with Np.div
                        (zip_with Np.sub (map Fin (vref g)) v)
                        (map Fin (vref g))))).
  { intros H. apply erro_perc_finite_nonzero in H; [| congruence].
    rewrite Forall_forall in H. now apply (H 0 Hin). }
  split; [exact Hno |].
  intros H. apply Hno. unfold Np.mean in H.
  apply div_finite_l in H. unfold Np.sum in H.
  now apply fold_add_finite in H.
Qed.

(** X10. A reference voltage equal to zero makes the post-processing divide
    by zero: on sample arrays of one length it still returns a result, in
    which some per-sample percent error is not finite and the mean percent
    error is not finite either, in both files. *)
Theorem zero_reference_poisons_mean
  (g : globals) (x1 x2 x3 x4 Rint m n : R) :
  length (corrente g) = length (temperatura g) ->
  length (vref g) = length (corrente g) ->
  In 0 (vref g) ->
  (exists r : fit_result,
     MainFit.pos_processamento g [x1; x2; x3; x4; Rint; m; n] = Ok r
     /\ ~ Forall is_finite (erro_perc r)
     /\ ~ is_finite (erro_medio r))
  /\ (exists r : fit_result,
        CsvFit.pos_processamento g [x1; x2; x3; x4; Rint; m; n] = Ok r
        /\ ~ Forall is_finite (erro_perc r)
        /\ ~ is_finite (erro_medio r)).
Proof.
  intros HlenT Hvref Hin. split.
  - apply (zero_reference_not_finite Main.calcular_vsaida g _
             (zip_with (Main.v_saida g x1 x2 x3 x4 Rint m n)
                (corrente g) (temperatura g))); trivial.
    + unfold Main.calcular_vsaida. now apply broadcast2_same_length.
    + now apply zip_with_length.
  - apply (zero_reference_not_finite Csv.calcular_vsaida g _
             (zip_with (Csv.v_saida g x1 x2 x3 x4 Rint m n)
                (corrente g) (temperatura g))); trivial.
    + unfold Csv.calcular_vsaida. now apply broadcast2_same_length.
    + now apply zip_with_length.
Qed.

Lemma zero_reference_poisons_mean_witness :
  (exists r : fit_result,
     MainFit.pos_processamento
       (csv_globals [(11.2, 306.55, 52.2); (22.6, 315.85, 0)]
          (limites main_globals))
       [-1; 3e-3; 5e-5; -1e-4; 3e-4; 1e-3; 0.1] = Ok r
     /\ ~ Forall is_finite (erro_perc r)
     /\ ~ is_finite (erro_medio r))
  /\ (exists r : fit_result,
        CsvFit.pos_processamento
          (csv_globals [(11.2, 306.55, 52.2); (22.6, 315.85, 0)]
             (limites main_globals))
          [-1; 3e-3; 5e-5; -1e-4; 3e-4; 1e-3; 0.1] = Ok r
        /\ ~ Forall is_finite (erro_perc r)
        /\ ~ is_finite (erro_medio r)).
Proof.
  apply (zero_reference_poisons_mean
           (csv_globals [(11.2, 306.55, 52.2); (22.6, 315.85, 0)]
              (limites main_globals))
           (-1) 3e-3 5e-5 (-1e-4) 3e-4 1e-3 0.1).
  - reflexivity.
  - reflexivity.
  - simpl. right. left. reflexivity.
Defined.

(** X11. On an empty sample set the post-processing raises nothing: it
    returns empty arrays of predictions, powers and percent errors, and a
    mean percent error that is [nan], for every seven-parameter vector and
    in both files. *)
Theorem pos_processamento_empty_samples
  (g : globals) (x1 x2 x3 x4 Rint m n : R) :
  corrente g = [] -> temperatura g = [] -> vref g = [] ->
  MainFit.pos_processamento g [x1; x2; x3; x4; Rint; m; n]
  = Ok {| params_otimizados := [x1; x2; x3; x4; Rint; m; n];
          v_saida_otimizada := [];
          potencia_saida := [];
          erro_perc := [];
          erro_medio := NaN |}
  /\ CsvFit.pos_processamento g [x1; x2; x3; x4; Rint; m; n]
     = Ok {| params_otimizados := [x1; x2; x3; x4; Rint; m; n];
             v_saida_otimizada := [];
             potencia_saida := [];
             erro_perc := [];
             erro_medio := NaN |}.
Proof.
  intros HI HT HV.
  unfold MainFit.pos_processamento, CsvFit.pos_processamento,
    pos_processamento.
  rewrite HI, HT, HV. cbn [bind Main.calcular_vsaida Csv.calcular_vsaida].
  unfold broadcast2. cbn [length Nat.eqb zip_with map bind].
  rewrite mean_empty. split; reflexivity.
Qed.

Lemma pos_processamento_empty_samples_witness :
  MainFit.pos_processamento (csv_globals [] (limites main_globals))
    [-1; 3e-3; 5e-5; -1e-4; 3e-4; 1e-3; 0.1]
  = Ok {| params_otimizados := [-1; 3e-3; 5e-5; -1e-4; 3e-4; 1e-3; 0.1];
          v_saida_otimizada := [];
          potencia_saida := [];
          erro_perc := [];
          erro_medio := NaN |}
  /\ CsvFit.pos_processamento (csv_globals [] (limites main_globals))
       [-1; 3e-3; 5e-5; -1e-4; 3e-4; 1e-3; 0.1]
     = Ok {| params_otimizados := [-1; 3e-3; 5e-5; -1e-4; 3e-4; 1e-3; 0.1];
             v_saida_otimizada := [];
             potencia_saida := [];
             erro_perc := [];
             erro_medio := NaN |}.
Proof.
  apply (pos_processamento_empty_samples
           (csv_globals [] (limites main_globals))
           (-1) 3e-3 5e-5 (-1e-4) 3e-4 1e-3 0.1); reflexivity.
Defined.

(** ** Shapes in the objective and in the fit *)

Lemma main_calcular_vsaida_cases (g : globals) (I T p : list R) :
  (Main.calcular_vsaida g I T p = Raise ValueError
   /\ (length p <> 7%nat \/ ~ broadcastable I T))
  \/ (exists vs : list float,
        Main.calcular_vsaida g I T p = Ok vs
        /\ length vs = broadcast_length I T
        /\ length p = 7%nat /\ broadcastable I T).
Proof.
  destruct (Nat.eq_dec (length p) 7) as [Hp | Hp].
  - destruct (seven_values p Hp) as (x1 & x2 & x3 & x4 & Rint & m & n & ->).
    destruct (broadcastable_dec I T) as [Hb | Hb].
    + right.
      destruct (broadcast2_ok (Main.v_saida g x1 x2 x3 x4 Rint m n) I T Hb)
        as (vs & Hvs & Hlen).
      exists vs. auto.
    + left. split; [now apply broadcast2_raise | now right].
  - left. split; [now apply main_unpack_raises | now left].
Qed.

Lemma csv_calcular_vsaida_cases (g : globals) (I T p : list R) :
  (Csv.calcular_vsaida g I T p = Raise ValueError
   /\ (length p <> 7%nat \/ ~ broadcastable I T))
  \/ (exists vs : list float,
        Csv.calcular_vsaida g I T p = Ok vs
        /\ length vs = broadcast_length I T
        /\ length p = 7%nat /\ broadcastable I T).
Proof.
  destruct (Nat.eq_dec (length p) 7) as [Hp | Hp].
  - destruct (seven_values p Hp) as (x1 & x2 & x3 & x4 & Rint & m & n & ->).
    destruct (broadcastable_dec I T) as [Hb | Hb].
    + right.
      destruct (broadcast2_ok (Csv.v_saida g x1 x2 x3 x4 Rint m n) I T Hb)
        as (vs & Hvs & Hlen).
      exists vs. auto.
    + left. split; [now apply broadcast2_raise | now right].
  - left. split; [now apply csv_unpack_raises | now left].
Qed.

Lemma objective_raises_iff
  (calc : evaluator) (g : globals) (p : list R) :
  (calc g (corrente g) (temperatura g) p = Raise ValueError
   /\ (length p <> 7%nat
       \/ ~ broadcastable (corrente g) (temperatura g)))
  \/ (exists vs : list float,
        calc g (corrente g) (temperatura g) p = Ok vs
        /\ length vs = broadcast_length (corrente g) (temperatura g)
        /\ length p = 7%nat
        /\ broadcastable (corrente g) (temperatura g)) ->
  (func_objetivo calc g p = Raise ValueError
   <-> length p <> 7%nat
       \/ ~ broadcastable (corrente g) (temperatura g)
       \/ ~ compatible (length (vref g))
            (broadcast_length (corrente g) (temperatura g))).
Proof.
  unfold func_objetivo.
  intros [[Hr Hwhy] | (vs & Hvs & Hlen & Hp & Hb)].
  - rewrite Hr. cbn [bind]. split; [tauto | reflexivity].
  - rewrite Hvs. cbn [bind].
    assert (Hbr : broadcastable (map Fin (vref g)) vs
                  <-> compatible (length (vref g))
                        (broadcast_length (corrente g) (temperatura g))).
    { unfold broadcastable. now rewrite length_map, Hlen. }
    destruct (broadcastable_dec (map Fin (vref g)) vs) as [Hc | Hc].
    + destruct (broadcast2_ok Np.sub _ _ Hc) as (d & Hd & _).
      rewrite Hd. cbn [bind]. split; [discriminate |].
      intros [H | [H | H]]; try contradiction. apply Hbr in Hc.
      contradiction.
    + rewrite broadcast2_raise by assumption. cbn [bind].
      split; [| reflexivity]. intros _. right. right.
      intros H. apply Hc. now apply Hbr.
Qed.

(** X12. The objective raises [ValueError], and raises exactly, when the
    parameter array does not hold seven values, or the current and
    temperature arrays cannot be broadcast, or the reference voltages
    cannot be broadcast against the predictions; in every other case it
    returns a value.  This holds in both files. *)
Theorem func_objetivo_shapes (g : globals) (p : list R) :
  (MainFit.func_objetivo g p = Raise ValueError
   <-> length p <> 7%nat
       \/ ~ broadcastable (corrente g) (temperatura g)
       \/ ~ compatible (length (vref g))
            (broadcast_length (corrente g) (temperatura g)))
  /\ (CsvFit.func_objetivo g p = Raise ValueError
      <-> length p <> 7%nat
          \/ ~ broadcastable (corrente g) (temperatura g)
          \/ ~ compatible (length (vref g))
               (broadcast_length (corrente g) (temperatura g))).
Proof.
  split.
  - apply objective_raises_iff. apply main_calcular_vsaida_cases.
  - apply objective_raises_iff. apply csv_calcular_vsaida_cases.
Qed.

Lemma compatible_with_current {A B : Type} (I : list A) (T : list B) :
  broadcastable I T -> compatible (broadcast_length I T) (length I).
Proof.
  unfold broadcastable, compatible, broadcast_length.
  destruct (Nat.eqb (length I) 1) eqn:E.
  - apply Nat.eqb_eq in E. intros _. right. now right.
  - intros _. now left.
Qed.

Lemma pos_processamento_raises_iff
  (calc : evaluator) (g : globals) (p : list R) :
  (calc g (corrente g) (temperatura g) p = Raise ValueError
   /\ (length p <> 7%nat
       \/ ~ broadcastable (corrente g) (temperatura g)))
  \/ (exists vs : list float,
        calc g (corrente g) (temperatura g) p = Ok vs
        /\ length vs = broadcast_length (corrente g) (temperatura g)
        /\ length p = 7%nat
        /\ broadcastable (corrente g) (temperatura g)) ->
  (pos_processamento calc g p = Raise ValueError
   <-> length p <> 7%nat
       \/ ~ broadcastable (corrente g) (temperatura g)
       \/ ~ compatible (length (vref g))
            (broadcast_length (corrente g) (temperatura g))).
Proof.
  unfold pos_processamento.
  intros [[Hr Hwhy] | (vs & Hvs & Hlen & Hp & Hb)].
  - rewrite Hr. cbn [bind]. split; [tauto | reflexivity].
  - rewrite Hvs. cbn [bind].
    assert (Hpot : broadcastable vs (map Fin (corrente g))).
    { unfold broadcastable. rewrite length_map, Hlen.
      now apply compatible_with_current. }
    destruct (broadcast2_ok Np.mul _ _ Hpot) as (pot & Hpot' & _).
    rewrite Hpot'. cbn [bind].
    assert (Hbr : broadcastable (map Fin (vref g)) vs
                  <-> compatible (length (vref g))
                        (broadcast_length (corrente g) (temperatura g))).
    { unfold broadcastable. now rewrite length_map, Hlen. }
    destruct (broadcastable_dec (map Fin (vref g)) vs) as [Hc | Hc].
    + destruct (broadcast2_ok Np.sub _ _ Hc) as (d & Hd & Hdlen).
      rewrite Hd. cbn [bind].
      assert (Hq : broadcastable d (map Fin (vref g))).
      { unfold broadcastable, compatible. rewrite Hdlen.
        unfold broadcast_length.
        destruct (Nat.eqb (length (map Fin (vref g))) 1) eqn:E.
        - apply Nat.eqb_eq in E. right. now right.
        - now left. }
      destruct (broadcast2_ok Np.div _ _ Hq) as (q & Hq' & _).
      rewrite Hq'. cbn [bind]. split; [discriminate |].
      intros [H | [H | H]]; try contradiction. apply Hbr in Hc.
      contradiction.
    + rewrite broadcast2_raise by assumption. cbn [bind].
      split; [| reflexivity]. intros _. right. right.
      intros H. apply Hc. now apply Hbr.
Qed.

(** X14. The post-processing raises at a parameter array exactly when the
    objective raises at it: whenever the objective can be evaluated, the
    power and percent-error arrays can be computed too, whatever the
    broadcast shapes of the three sample arrays.  This holds in both
    files. *)
Theorem pos_processamento_raises_with_objective (g : globals) (p : list R) :
  (MainFit.pos_processamento g p = Raise ValueError
   <-> MainFit.func_objetivo g p = Raise ValueError)
  /\ (CsvFit.pos_processamento g p = Raise ValueError
      <-> CsvFit.func_objetivo g p = Raise ValueError).
Proof.
  split.
  - unfold MainFit.pos_processamento, MainFit.func_objetivo.
    rewrite (pos_processamento_raises_iff Main.calcular_vsaida g p
               (main_calcular_vsaida_cases g _ _ p)).
    rewrite (objective_raises_iff Main.calcular_vsaida g p
               (main_calcular_vsaida_cases g _ _ p)).
    reflexivity.
  - unfold CsvFit.pos_processamento, CsvFit.func_objetivo.
    rewrite (pos_processamento_raises_iff Csv.calcular_vsaida g p
               (csv_calcular_vsaida_cases g _ _ p)).
    rewrite (objective_raises_iff Csv.calcular_vsaida g p
               (csv_calcular_vsaida_cases g _ _ p)).
    reflexivity.
Qed.

(** X13. Current and temperature arrays whose shapes cannot be broadcast
    are not detected before the search, and the fit never returns a
    result: the objective raises at every point, and whatever the two
    optimizers do with the exceptions they receive, the run ends with an
    exception, the optimizer's own or the [ValueError] of the
    post-processing.  This holds in both files. *)
Theorem fit_fails_on_mismatched_samples (o : optimizers) (g : globals) :
  ~ broadcastable (corrente g) (temperatura g) ->
  (forall p : list R,
     MainFit.func_objetivo g p = Raise ValueError
     /\ CsvFit.func_objetivo g p = Raise ValueError)
  /\ (exists (t : list (list R)) (e : exn), MainFit.fit o g = (t, Raise e))
  /\ (exists (t : list (list R)) (e : exn), CsvFit.fit o g = (t, Raise e)).
Proof.
  intros Hb. split; [| split].
  - intros p. split.
    + apply (objective_raises_iff Main.calcular_vsaida g p
               (main_calcular_vsaida_cases g _ _ p)).
      right. now left.
    + apply (objective_raises_iff Csv.calcular_vsaida g p
               (csv_calcular_vsaida_cases g _ _ p)).
      right. now left.
  - unfold MainFit.fit, fit.
    destruct (run (func_objetivo Main.calcular_vsaida g)
                (differential_evolution o (limites g))) as [t1 [x | e]];
      [| eauto].
    destruct (run (func_objetivo Main.calcular_vsaida g)
                (minimize o x (limites g))) as [t2 [x' | e]]; [| eauto].
    exists (t1 ++ t2), ValueError. f_equal.
    apply (pos_processamento_raises_iff Main.calcular_vsaida g x'
             (main_calcular_vsaida_cases g _ _ x')).
    right. now left.
  - unfold CsvFit.fit, fit.
    destruct (run (func_objetivo Csv.calcular_vsaida g)
                (differential_evolution o (limites g))) as [t1 [x | e]];
      [| eauto].
    destruct (run (func_objetivo Csv.calcular_vsaida g)
                (minimize o x (limites g))) as [t2 [x' | e]]; [| eauto].
    exists (t1 ++ t2), ValueError. f_equal.
    apply (pos_processamento_raises_iff Csv.calcular_vsaida g x'
             (csv_calcular_vsaida_cases g _ _ x')).
    right. now left.
Qed.

Lemma fit_fails_on_mismatched_samples_witness :
  (forall p : list R,
     MainFit.func_objetivo mismatched_globals p = Raise ValueError
     /\ CsvFit.func_objetivo mismatched_globals p = Raise ValueError)
  /\ (exists (t : list (list R)) (e : exn),
        MainFit.fit probe_optimizers mismatched_globals = (t, Raise e))
  /\ (exists (t : list (list R)) (e : exn),
        CsvFit.fit probe_optimizers mismatched_globals = (t, Raise e)).
Proof.
  apply (fit_fails_on_mismatched_samples probe_optimizers mismatched_globals).
  unfold broadcastable, compatible. simpl. lia.
Defined.

(** ** The range of float64 in the exponentials *)

Lemma exp64_in_range (x : R) :
  Spec.exp_in_range x -> exp64 (Fin x) = Fin (Rtrigo_def.exp x).
Proof.
  intros [Hlo Hhi]. simpl.
  destruct (Rle_dec overflow_threshold (Rtrigo_def.exp x)) as [H | _];
    [lra |].
  destruct (Rle_dec (Rtrigo_def.exp x) underflow_threshold) as [H | _];
    [lra | reflexivity].
Qed.


Lemma exp_600_below_overflow : Rtrigo_def.exp 600 < overflow_threshold.
Proof.
  pose proof (exp_nat_upper 600) as H.
  replace (INR 600) with 600 in H by (rewrite INR_IZR_INZ; reflexivity).
  unfold overflow_threshold.
  assert (3 ^ 600 < 2 ^ 1024 - 2 ^ 970) by lra. lra.
Qed.

(** Arguments between -600 and 600 are well inside the range. *)
Lemma exp_moderate_in_range (x : R) :
  -600 <= x <= 600 -> Spec.exp_in_range x.
Proof.
  intros [Hlo Hhi]. unfold Spec.exp_in_range.
  pose proof exp_600_below_overflow as H600.
  pose proof (exp_pos 600) as Hpos.
  split.
  - assert (Hle : Rtrigo_def.exp (-600) <= Rtrigo_def.exp x).
    { destruct (Req_dec (-600) x) as [<- | Hne]; [lra |].
      left. apply exp_increasing. lra. }
    assert (Hinv : Rtrigo_def.exp (-600) = / Rtrigo_def.exp 600).
    { replace (-600) with (- (600)) by lra. apply exp_Ropp. }
    assert (Hlt : / overflow_threshold < / Rtrigo_def.exp 600).
    { apply Rinv_lt_contravar; [| assumption].
      apply Rmult_lt_0_compat; lra. }
    assert (Hth : underflow_threshold < / overflow_threshold).
    { unfold underflow_threshold, overflow_threshold. lra. }
    lra.
  - assert (Hle : Rtrigo_def.exp x <= Rtrigo_def.exp 600).
    { destruct (Req_dec x 600) as [-> | Hne]; [lra |].
      left. apply exp_increasing. lra. }
    lra.
Qed.



Lemma exp64_quotient (T : R) :
  Spec.exp_in_range (-498 / T) -> exp64 (-498 / T)%np = exp (-498 / T)%np.
Proof.
  intros H. destruct (Req_dec_T T 0) as [-> | HT].
  - now rewrite div_by_zero.
  - rewrite div_Fin by assumption. now apply exp64_in_range.
Qed.

Lemma exp64_product (n I : R) :
  Spec.exp_in_range (n * I) -> exp64 (n * I)%np = exp (n * I)%np.
Proof. intros H. cbn [Np.mul]. now apply exp64_in_range. Qed.

Lemma main_v_saida64_in_range (g : globals) (x1 x2 x3 x4 Rint m n I T : R) :
  Spec.in_range n I T ->
  Main.v_saida64 g x1 x2 x3 x4 Rint m n I T
  = Main.v_saida g x1 x2 x3 x4 Rint m n I T.
Proof.
  intros [Hn HT]. unfold Main.v_saida64, Main.v_saida.
  now rewrite exp64_quotient, exp64_product
    by now apply exp_moderate_in_range.
Qed.

Lemma csv_v_saida64_in_range (g : globals) (x1 x2 x3 x4 Rint m n I T : R) :
  Spec.in_range n I T ->
  Csv.v_saida64 g x1 x2 x3 x4 Rint m n I T
  = Csv.v_saida g x1 x2 x3 x4 Rint m n I T.
Proof.
  intros [Hn HT]. unfold Csv.v_saida64, Csv.v_saida.
  now rewrite exp64_quotient, exp64_product
    by now apply exp_moderate_in_range.
Qed.

Lemma main_calcular_vsaida64_in_range
  (g : globals) (I T : list R) (x1 x2 x3 x4 Rint m n : R) :
  Forall2 (Spec.in_range n) I T ->
  Main.calcular_vsaida64 g I T [x1; x2; x3; x4; Rint; m; n]
  = Main.calcular_vsaida g I T [x1; x2; x3; x4; Rint; m; n].
Proof.
  intros H. unfold Main.calcular_vsaida64, Main.calcular_vsaida.
  rewrite !broadcast2_same_length by (eapply Forall2_length; eassumption).
  f_equal. apply zip_with_ext_in. intros i t Hin.
  apply main_v_saida64_in_range. eapply Forall2_combine_in; eassumption.
Qed.

Lemma csv_calcular_vsaida64_in_range
  (g : globals) (I T : list R) (x1 x2 x3 x4 Rint m n : R) :
  Forall2 (Spec.in_range n) I T ->
  Csv.calcular_vsaida64 g I T [x1; x2; x3; x4; Rint; m; n]
  = Csv.calcular_vsaida g I T [x1; x2; x3; x4; Rint; m; n].
Proof.
  intros H. unfold Csv.calcular_vsaida64, Csv.calcular_vsaida.
  rewrite !broadcast2_same_length by (eapply Forall2_length; eassumption).
  f_equal. apply zip_with_ext_in. intros i t Hin.
  apply csv_v_saida64_in_range. eapply Forall2_combine_in; eassumption.
Qed.




Ltac samples_in_range :=
  unfold Spec.in_range;
  repeat (apply Forall2_cons; [lra |]); apply Forall2_nil.



Lemma main_calcular_vsaida64_in_domain
  (g : globals) (I T : list R) (x1 x2 x3 x4 Rint m n : R) :
  Forall2 (Spec.in_domain g) I T ->
  Forall2 (Spec.in_range n) I T ->
  Main.calcular_vsaida64 g I T [x1; x2; x3; x4; Rint; m; n]
  = Ok (map Fin (zip_with (Spec.output g x1 x2 x3 x4 Rint m n) I T)).
Proof.
  intros Hdom Hran. rewrite main_calcular_vsaida64_in_range by assumption.
  now apply main_calcular_vsaida_in_domain.
Qed.

Lemma csv_calcular_vsaida64_in_domain
  (g : globals) (I T : list R) (x1 x2 x3 x4 Rint m n : R) :
  Forall2 (Spec.in_domain g) I T ->
  Forall2 (Spec.in_range n) I T ->
  Csv.calcular_vsaida64 g I T [x1; x2; x3; x4; Rint; m; n]
  = Ok (map Fin (zip_with (csv_output g x1 x2 x3 x4 Rint m n) I T)).
Proof.
  intros Hdom Hran. rewrite csv_calcular_vsaida64_in_range by assumption.
  now apply csv_calcular_vsaida_in_domain.
Qed.



(** ** C4: finite values *)




(** ** C9: the internal resistance *)




(** ** C10: the concentration-loss factor *)




(** ** Special values of the evaluators *)




(** ** The resistance and the exponent *)

(** X5. On samples in the domain whose exponents [n*I] and [-498/T] lie
    between -600 and 600, and in exact arithmetic on finite values (float64
    rounding is not modelled), the predicted voltage at [Rint'] is the
    predicted voltage at [Rint] minus [N * (Rint' - Rint) * I] at the
    sample of current [I], in both files: the change is proportional to the
    current and is zero at zero current. *)
Theorem rint_exact_effect
  (g : globals) (I T : list R) (x1 x2 x3 x4 Rint Rint' m n : R) :
  Forall2 (Spec.in_domain g) I T ->
  Forall2 (Spec.in_range n) I T ->
  (exists vs : list R,
     Main.calcular_vsaida64 g I T [x1; x2; x3; x4; Rint; m; n]
     = Ok (map Fin vs)
     /\ Main.calcular_vsaida64 g I T [x1; x2; x3; x4; Rint'; m; n]
        = Ok (map Fin
                (zip_with (fun v i => v - IZR (N g) * (Rint' - Rint) * i)
                   vs I)))
  /\ (exists vs : list R,
        Csv.calcular_vsaida64 g I T [x1; x2; x3; x4; Rint; m; n]
        = Ok (map Fin vs)
        /\ Csv.calcular_vsaida64 g I T [x1; x2; x3; x4; Rint'; m; n]
           = Ok (map Fin
                   (zip_with (fun v i => v - IZR (N g) * (Rint' - Rint) * i)
                      vs I))).
Proof.
  intros Hdom Hran. split.
  - rewrite !main_calcular_vsaida64_in_domain by assumption.
    eexists. split; [reflexivity |]. do 2 f_equal.
    rewrite zip_with_zip_with_l. apply zip_with_ext. intros i t.
    unfold Spec.output, Spec.v_cell, Spec.ohmic_loss. ring.
  - rewrite !csv_calcular_vsaida64_in_domain by assumption.
    eexists. split; [reflexivity |]. do 2 f_equal.
    rewrite zip_with_zip_with_l. apply zip_with_ext. intros i t.
    unfold csv_output, Spec.ohmic_loss. ring.
Qed.

Lemma rint_exact_effect_witness :
  (exists vs : list R,
     Main.calcular_vsaida64 main_globals [-5e-7; 0; 11.2]
       [306.55; 315.85; 322.45]
       [-1; 3e-3; 5e-5; -1e-4; 1e-4; 1e-3; 0.1] = Ok (map Fin vs)
     /\ Main.calcular_vsaida64 main_globals [-5e-7; 0; 11.2]
          [306.55; 315.85; 322.45]
          [-1; 3e-3; 5e-5; -1e-4; 8e-4; 1e-3; 0.1]
        = Ok (map Fin
                (zip_with
                   (fun v i => v - IZR (N main_globals) * (8e-4 - 1e-4) * i)
                   vs [-5e-7; 0; 11.2])))
  /\ (exists vs : list R,
        Csv.calcular_vsaida64 main_globals [-5e-7; 0; 11.2]
          [306.55; 315.85; 322.45]
          [-1; 3e-3; 5e-5; -1e-4; 1e-4; 1e-3; 0.1] = Ok (map Fin vs)
        /\ Csv.calcular_vsaida64 main_globals [-5e-7; 0; 11.2]
             [306.55; 315.85; 322.45]
             [-1; 3e-3; 5e-5; -1e-4; 8e-4; 1e-3; 0.1]
           = Ok (map Fin
                   (zip_with
                      (fun v i =>
                         v - IZR (N main_globals) * (8e-4 - 1e-4) * i)
                      vs [-5e-7; 0; 11.2]))).
Proof.
  apply (rint_exact_effect main_globals [-5e-7; 0; 11.2]
           [306.55; 315.85; 322.45] (-1) 3e-3 5e-5 (-1e-4) 1e-4 8e-4
           1e-3 0.1).
  - repeat constructor; simpl; lra.
  - samples_in_range.
Defined.


